(** * Openverse front end: playback controller and collapsible tag section

  A shallow embedding of two Vue components:

  - the global audio track (status machine, time-sync loop, toggle and
    seek handlers), and
  - [VCollapsibleTagSection.vue] (row-start detection and overflow state).

  JavaScript numbers are IEEE-754 binary64 values, so seconds and pixel
  widths are primitive floats; array indices and [offsetLeft] (a DOM
  [long]) are integers. *)

From Stdlib Require Import Bool Arith ZArith List String Lia.
From Stdlib Require Import Floats.
Import ListNotations.

Set Implicit Arguments.

(** ** JavaScript number helpers *)

Module Js.

(** [isNaN(x)] on a number. *)
Definition isNaN (x : float) : bool := PrimFloat.is_nan x.

(** Truthiness of a number: [0], [-0] and [NaN] are falsy. *)
Definition truthy (x : float) : bool :=
  negb (PrimFloat.is_zero x) && negb (PrimFloat.is_nan x).

(** Truthiness of [number | undefined]. *)
Definition truthy_opt (x : option float) : bool :=
  match x with
  | Some v => truthy v
  | None => false
  end.

(** Truthiness of an array index ([number | undefined] holding a
    non-negative integer). *)
Definition truthy_index (x : option nat) : bool :=
  match x with
  | Some (S _) => true
  | Some O => false
  | None => false
  end.

End Js.

(** ** The audio track component *)

Module Track.

(** [AudioStatus] from [#shared/constants/audio]. *)
Inductive AudioStatus : Type :=
| Playing
| Paused
| Played
| Loading.

Definition status_eqb (a b : AudioStatus) : bool :=
  match a, b with
  | Playing, Playing | Paused, Paused | Played, Played | Loading, Loading => true
  | _, _ => false
  end.

(** [AudioInteraction] from [#shared/types/analytics]. *)
Inductive AudioInteraction : Type :=
| IPlay
| IPause
| ISeek.

(** The names registered in [eventMap]. *)
Inductive EventName : Type :=
| EvPlay
| EvPause
| EvEnded
| EvTimeupdate
| EvDurationchange
| EvWaiting
| EvPlaying.

Definition eventMap_keys : list EventName :=
  [EvPlay; EvPause; EvEnded; EvTimeupdate; EvDurationchange; EvWaiting; EvPlaying].

(** The fields of an [HTMLAudioElement] the component touches.  [rid]
    stands for the identity of the DOM object. *)
Record Resource : Type := mkResource {
  rid : nat;
  rCurrentTime : float;
  rDuration : float;
  rPaused : bool;
  rEnded : bool
}.

Definition set_rCurrentTime (t : float) (r : Resource) : Resource :=
  mkResource (rid r) t (rDuration r) (rPaused r) (rEnded r).

(** An event as a handler sees it: [event.target] may be [null], and
    the target's [currentTime] may be missing (hence [?? 0]). *)
Record EventTarget : Type := mkTarget { targetCurrentTime : option float }.
Record Event : Type := mkEvent { target : option EventTarget }.

Definition target_of (r : Resource) : EventTarget := mkTarget (Some (rCurrentTime r)).

(** The event a listener registered on [r] is called with: dispatch
    sets its target to [r]. *)
Definition event_from (r : Resource) : Event := mkEvent (Some (target_of r)).

(** Calls that leave the component. *)
Inductive Effect : Type :=
| PlayAudio (arg : option Resource)      (* activeMediaStore.playAudio(obj) *)
| ResourcePause (r : nat)                (* obj.pause() *)
| SetHasLoaded                           (* mediaStore.setMediaProperties *)
| Analytics (e : AudioInteraction).      (* $sendCustomEvent AUDIO_INTERACTION *)

(** Component state together with the collaborators it reads. *)
Record State : Type := mkState {
  status : AudioStatus;
  currentTime : float;
  durationSet : option float;       (* value written into the [duration] ref *)
  propDuration : option float;      (* props.audio.duration when a number *)
  hasLoaded : bool;                 (* props.audio.hasLoaded *)
  obj : option Resource;            (* activeAudio.obj.value *)
  rafQueue : nat;                   (* queued requestAnimationFrame(updateTimeLoop) *)
  listeners : list (nat * EventName);
  cleanup : option nat;             (* resource named by the pending onInvalidate *)
  log : list Effect
}.

Definition with_status (s : AudioStatus) (st : State) : State :=
  mkState s (currentTime st) (durationSet st) (propDuration st) (hasLoaded st)
          (obj st) (rafQueue st) (listeners st) (cleanup st) (log st).

Definition with_currentTime (t : float) (st : State) : State :=
  mkState (status st) t (durationSet st) (propDuration st) (hasLoaded st)
          (obj st) (rafQueue st) (listeners st) (cleanup st) (log st).

Definition with_durationSet (d : option float) (st : State) : State :=
  mkState (status st) (currentTime st) d (propDuration st) (hasLoaded st)
          (obj st) (rafQueue st) (listeners st) (cleanup st) (log st).

Definition with_hasLoaded (b : bool) (st : State) : State :=
  mkState (status st) (currentTime st) (durationSet st) (propDuration st) b
          (obj st) (rafQueue st) (listeners st) (cleanup st) (log st).

Definition with_obj (o : option Resource) (st : State) : State :=
  mkState (status st) (currentTime st) (durationSet st) (propDuration st) (hasLoaded st)
          o (rafQueue st) (listeners st) (cleanup st) (log st).

Definition with_rafQueue (n : nat) (st : State) : State :=
  mkState (status st) (currentTime st) (durationSet st) (propDuration st) (hasLoaded st)
          (obj st) n (listeners st) (cleanup st) (log st).

Definition with_listeners (l : list (nat * EventName)) (c : option nat) (st : State) : State :=
  mkState (status st) (currentTime st) (durationSet st) (propDuration st) (hasLoaded st)
          (obj st) (rafQueue st) l c (log st).

Definition emit (e : Effect) (st : State) : State :=
  mkState (status st) (currentTime st) (durationSet st) (propDuration st) (hasLoaded st)
          (obj st) (rafQueue st) (listeners st) (cleanup st) (log st ++ [e]).

(** The getter handed to [defaultRef]. *)
Definition defaultDuration (st : State) : float :=
  match propDuration st with
  | Some ms => (ms / 1000)%float
  | None => 0%float
  end.

(** Modelled from the spec: [defaultRef] (~/composables/default-ref) is
    not among the sources.  The ref yields the getter's value until it is
    assigned, and the assigned value from then on ("Duration defaults to
    0 until a numeric, non-NaN value is observed"). *)
Definition duration (st : State) : float :=
  match durationSet st with
  | Some d => d
  | None => defaultDuration st
  end.

(** The refs as [setup] creates them, before the watcher's first
    ([immediate]) run. *)
Definition init (propDur : option float) (loaded : bool) (o : option Resource) : State :=
  mkState Paused 0%float None propDur loaded o 0 [] None [].

(** *** Status setters and event handlers *)

(** The guard of [updateTimeLoop]. *)
Definition loopGuard (st : State) : bool :=
  match obj st with
  | Some _ => status_eqb (status st) Playing || status_eqb (status st) Loading
  | None => false
  end.

(** [updateTimeLoop]: copy the resource's time and ask for another
    animation frame, as long as the guard holds. *)
Definition updateTimeLoop (st : State) : State :=
  match obj st with
  | Some a =>
      if status_eqb (status st) Playing || status_eqb (status st) Loading
      then with_rafQueue (S (rafQueue st)) (with_currentTime (rCurrentTime a) st)
      else st
  | None => st
  end.

Definition setPlaying (st : State) : State :=
  updateTimeLoop
    (if hasLoaded st then with_status Playing st else with_status Loading st).

Definition setPaused (st : State) : State := with_status Paused st.
Definition setPlayed (st : State) : State := with_status Played st.

Definition setTimeWhenPaused (event : Event) (st : State) : State :=
  if negb (status_eqb (status st) Playing) then
    match target event with
    | Some t =>
        let st1 :=
          with_currentTime
            (match targetCurrentTime t with Some c => c | None => 0%float end) st in
        if status_eqb (status st1) Played then with_status Paused st1 else st1
    | None => st
    end
  else st.

Definition setDuration (st : State) : State :=
  match obj st with
  | Some a => with_durationSet (Some (rDuration a)) st
  | None => st
  end.

(** Modelled from the spec: the media store is not among the sources;
    [setMediaProperties] with [hasLoaded: true] is recorded as a call and
    "read back to decide whether a play event should transition to
    playing immediately or to loading". *)
Definition setLoaded (st : State) : State :=
  with_status Playing (with_hasLoaded true (emit SetHasLoaded st)).

Definition setWaiting (st : State) : State := with_status Loading st.

(** [eventMap]: the handler registered for each event name. *)
Definition eventMap (name : EventName) (event : Event) (st : State) : State :=
  match name with
  | EvPlay => setPlaying st
  | EvPause => setPaused st
  | EvEnded => setPlayed st
  | EvTimeupdate => setTimeWhenPaused event st
  | EvDurationchange => setDuration st
  | EvWaiting => setWaiting st
  | EvPlaying => setLoaded st
  end.

(** *** The watcher on [activeAudio.obj] *)

Definition runCleanup (st : State) : State :=
  match cleanup st with
  | Some old =>
      with_listeners
        (filter (fun l => negb (Nat.eqb (fst l) old)) (listeners st)) None st
  | None => st
  end.

Definition addListeners (a : Resource) (st : State) : State :=
  with_listeners
    (listeners st ++ map (fun name => (rid a, name)) eventMap_keys)
    (cleanup st) st.

Definition onInvalidate (a : Resource) (st : State) : State :=
  with_listeners (listeners st) (Some (rid a)) st.

(** The callback body, run with the new value of the ref. *)
Definition watchCallback (audio : option Resource) (st : State) : State :=
  match audio with
  | None => st
  | Some a =>
      let st1 := addListeners a st in
      let st2 := with_currentTime (rCurrentTime a) st1 in
      let st3 :=
        if Js.truthy (rDuration a) && negb (Js.isNaN (rDuration a))
        then with_durationSet (Some (rDuration a)) st2
        else st2 in
      let st4 :=
        if rPaused a then
          if rEnded a then setPlayed st3 else setPaused st3
        else setPlaying st3 in
      onInvalidate a st4
  end.

(** The active resource reference changes to [audio]: the previous
    run's invalidation hook fires, then the callback runs. *)
Definition rebind (audio : option Resource) (st : State) : State :=
  watchCallback audio (runCleanup (with_obj audio st)).

(** *** Toggle and seek *)

Definition play (st : State) : State := emit (PlayAudio (obj st)) st.

Definition pause (st : State) : State :=
  match obj st with
  | Some a => emit (ResourcePause (rid a)) st
  | None => st
  end.

Definition sendAudioInteractionEvent (e : AudioInteraction) (st : State) : State :=
  emit (Analytics e) st.

(** [handleToggle].  The declared parameter type only admits ["playing"],
    ["paused"] or nothing; any status is accepted here. *)
Definition handleToggle (state : option AudioStatus) (st : State) : State :=
  let state1 :=
    match state with
    | None =>
        match status st with
        | Playing => Some Paused
        | Paused | Played => Some Playing
        | Loading => None
        end
    | Some s => Some s
    end in
  let '(st1, event) :=
    match state1 with
    | Some Playing => (play st, Some IPlay)
    | Some Paused => (pause st, Some IPause)
    | _ => (st, None)
    end in
  match event with
  | Some e => sendAudioInteractionEvent e st1
  | None => st1
  end.

(** How a handler ends: it returns, or an exception leaves it.  Either
    way the component is left in the state carried. *)
Inductive Completion : Type :=
| Normal (st : State)
| Throws (st : State).

Definition stateAfter (c : Completion) : State :=
  match c with
  | Normal st => st
  | Throws st => st
  end.

(** Assigning [currentTime] on an [HTMLMediaElement].  The attribute is a
    WebIDL [double]: a NaN or infinite value is refused with a TypeError
    and nothing is written; a finite value becomes the element's current
    time. *)
Definition assignCurrentTime (t : float) (a : Resource) : option Resource :=
  if PrimFloat.is_finite t then Some (set_rCurrentTime t a) else None.

(** [handleSeeked]: the assignment comes first, so an exception from it
    leaves the handler before the analytics event is sent. *)
Definition handleSeeked (frac : float) (st : State) : Completion :=
  match obj st with
  | Some a =>
      match assignCurrentTime (frac * duration st)%float a with
      | Some a' => Normal (sendAudioInteractionEvent ISeek (with_obj (Some a') st))
      | None => Throws st
      end
  | None => Normal st
  end.

(** *** Scheduling *)

(** One animation frame: the callbacks queued so far run; whatever they
    request is queued for the following frame. *)
Definition frame (st : State) : State :=
  Nat.iter (rafQueue st) updateTimeLoop (with_rafQueue 0 st).

(** The media engine changes the bound resource's own fields. *)
Definition mediaProgress (t d : float) (p e : bool) (st : State) : State :=
  match obj st with
  | Some a => with_obj (Some (mkResource (rid a) t d p e)) st
  | None => st
  end.

Inductive Step : Type :=
| SEvent (name : EventName) (event : Event)
| SFrame
| SRebind (audio : option Resource)
| SMedia (t d : float) (p e : bool)
| SToggle (state : option AudioStatus)
| SSeek (frac : float).

Definition step (s : Step) (st : State) : State :=
  match s with
  | SEvent name event => eventMap name event st
  | SFrame => frame st
  | SRebind audio => rebind audio st
  | SMedia t d p e => mediaProgress t d p e st
  | SToggle state => handleToggle state st
  | SSeek frac => stateAfter (handleSeeked frac st)
  end.

Fixpoint run (steps : list Step) (st : State) : State :=
  match steps with
  | [] => st
  | s :: rest => run rest (step s st)
  end.

(** Steps that call [updateTimeLoop] from outside the loop. *)
Definition startsLoop (s : Step) : bool :=
  match s with
  | SEvent EvPlay _ => true
  | SRebind _ => true
  | _ => false
  end.

(** *** Readings of the rebinding rule *)

(** The status a rebinding yields according to the specification's
    wording: ended first, then paused, otherwise playing. *)
Definition claimedRebindStatus (a : Resource) : AudioStatus :=
  if rEnded a then Played else if rPaused a then Paused else Playing.

(** The status the watcher's nested test yields. *)
Definition reconciledStatus (loaded : bool) (a : Resource) : AudioStatus :=
  if rPaused a then (if rEnded a then Played else Paused)
  else (if loaded then Playing else Loading).

(** *** Reading of the toggle policy *)

(** The target a toggle resolves to: the explicit one when given,
    otherwise the opposite of the current status; a status that is
    neither playing, paused nor played resolves to nothing. *)
Definition toggleTarget (current : AudioStatus) (explicit : option AudioStatus)
  : option AudioStatus :=
  match explicit with
  | Some t => Some t
  | None =>
      match current with
      | Playing => Some Paused
      | Paused => Some Playing
      | Played => Some Playing
      | Loading => None
      end
  end.

(** The calls and analytics a resolved target stands for. *)
Definition toggleEffects (o : option Resource) (resolved : option AudioStatus)
  : list Effect :=
  match resolved with
  | Some Playing => [PlayAudio o; Analytics IPlay]
  | Some Paused =>
      match o with
      | Some a => [ResourcePause (rid a); Analytics IPause]
      | None => [Analytics IPause]
      end
  | _ => []
  end.

(** All of the component's own view state. *)
Definition view (st : State) : AudioStatus * float * float :=
  (status st, currentTime st, duration st).

(** *** Vocabulary for runs of the component *)

(** The listeners one run of the watcher registers on a resource. *)
Definition listenersOf (r : nat) : list (nat * EventName) :=
  map (fun name => (r, name)) eventMap_keys.

Definition isRebind (s : Step) : bool :=
  match s with
  | SRebind _ => true
  | _ => false
  end.

Definition isDurationchange (s : Step) : bool :=
  match s with
  | SEvent EvDurationchange _ => true
  | _ => false
  end.

(** Steps that are neither a resource event nor a rebinding. *)
Definition isLocalStep (s : Step) : bool :=
  match s with
  | SFrame | SMedia _ _ _ _ | SToggle _ | SSeek _ => true
  | SEvent _ _ | SRebind _ => false
  end.

(** The two handlers wired to the child components. *)
Definition isUserAction (s : Step) : bool :=
  match s with
  | SToggle _ | SSeek _ => true
  | _ => false
  end.

(** Steps that can write the displayed time while the loop is stopped. *)
Definition movesTime (s : Step) : bool :=
  match s with
  | SEvent EvPlay _ | SEvent EvTimeupdate _ | SRebind _ => true
  | _ => false
  end.

(** Calls to the resource, the active-media store or the analytics sink. *)
Definition isOutward (e : Effect) : bool :=
  match e with
  | PlayAudio _ | ResourcePause _ | Analytics _ => true
  | SetHasLoaded => false
  end.

(** Everything but the displayed time and the frame queue. *)
Definition rest (st : State) :=
  (status st, durationSet st, propDuration st, hasLoaded st, obj st,
   listeners st, cleanup st, log st).

(** The registrations are those of the watcher's latest run. *)
Definition listenersSettled (st : State) : Prop :=
  listeners st
  = match cleanup st with
    | Some r => listenersOf r
    | None => []
    end.

(** The media engine advances and a frame follows, once per entry. *)
Definition playback (ms : list (float * float * bool * bool)) : list Step :=
  flat_map (fun m => match m with (t, d, p, e) => [SMedia t d p e; SFrame] end) ms.

End Track.

(** ** The collapsible tag section *)

Module Tags.

Open Scope Z_scope.

(** The number of rows to display before collapsing the tags. *)
Definition ROWS_TO_DISPLAY : nat := 3.

(** [Tag] from [#shared/types/media]; only [name] is read here. *)
Record Tag : Type := mkTag { name : string; accuracy : option Z }.

(** A rendered child of the tag container. *)
Record HTMLElement : Type := mkElement { offsetLeft : Z }.

Inductive ButtonStatus : Type :=
| Show
| Hide.

(** Callbacks handed to [nextTick]. *)
Inductive TickJob : Type :=
| Remeasure
| FocusFourthRow.

Inductive Sent : Type :=
| ToggleTagExpansion (toState : string).

Record State : Type := mkState {
  tags : list Tag;                          (* props.tags *)
  dir : string;                             (* localeProperties.dir *)
  collapsibleRowsStartAt : option nat;
  buttonStatus : ButtonStatus;
  tagsContainerRef : bool;                  (* is the template ref set *)
  listWidth : option float;
  nextTicks : list TickJob;
  focusRequests : list (option nat);        (* child index handed to focusElement *)
  sent : list Sent
}.

(** [Array.from(new Set(xs))]: insertion order, first occurrence kept. *)
Fixpoint setFrom (seen : list string) (xs : list string) : list string :=
  match xs with
  | [] => []
  | x :: rest =>
      if existsb (String.eqb x) seen
      then setFrom seen rest
      else x :: setFrom (x :: seen) rest
  end.

Definition normalizedTags (st : State) : list string :=
  setFrom [] (map name (tags st)).

Definition isFurtherInline (d : string) (previous current : HTMLElement) : bool :=
  if String.eqb d "rtl"
  then offsetLeft previous <? offsetLeft current
  else offsetLeft previous >? offsetLeft current.

(** The body of the [for] loop in [findRowStartsAt]: [Some i] is the
    early [return i], [None] means the loop ran to the end. *)
Fixpoint rowLoop (d : string) (previous : option HTMLElement)
         (rest : list HTMLElement) (i rowCount : nat) : option nat :=
  match rest with
  | [] => None
  | child :: rest' =>
      let rowCount' :=
        match previous with
        | None => S rowCount
        | Some p => if isFurtherInline d p child then S rowCount else rowCount
        end in
      if Nat.eqb rowCount' (ROWS_TO_DISPLAY + 1)
      then Some i
      else rowLoop d (Some child) rest' (S i) rowCount'
  end.

Definition findRowStartsAt (d : string) (children : list HTMLElement) : nat :=
  match children with
  | [] => 0%nat
  | _ =>
      match rowLoop d None children 0 0 with
      | Some i => i
      | None => List.length children
      end
  end.

Definition visibleTags (st : State) : list string :=
  match collapsibleRowsStartAt st, buttonStatus st with
  | Some (S k), Show => firstn (S k) (normalizedTags st)
  | _, _ => normalizedTags st
  end.

(** The value of an [a && b] whose left operand is an index and whose
    right operand is a comparison. *)
Inductive JsValue : Type :=
| JUndefined
| JNumber (n : nat)
| JBool (b : bool).

Definition truthyValue (v : JsValue) : bool :=
  match v with
  | JUndefined => false
  | JNumber O => false
  | JNumber (S _) => true
  | JBool b => b
  end.

Definition hasOverflow (st : State) : JsValue :=
  match collapsibleRowsStartAt st with
  | None => JUndefined
  | Some O => JNumber 0
  | Some (S k) => JBool (Nat.ltb (S k) (List.length (normalizedTags st)))
  end.

Definition with_rows (k : option nat) (st : State) : State :=
  mkState (tags st) (dir st) k (buttonStatus st) (tagsContainerRef st)
          (listWidth st) (nextTicks st) (focusRequests st) (sent st).

Definition with_button (b : ButtonStatus) (st : State) : State :=
  mkState (tags st) (dir st) (collapsibleRowsStartAt st) b (tagsContainerRef st)
          (listWidth st) (nextTicks st) (focusRequests st) (sent st).

Definition with_listWidth (w : option float) (st : State) : State :=
  mkState (tags st) (dir st) (collapsibleRowsStartAt st) (buttonStatus st)
          (tagsContainerRef st) w (nextTicks st) (focusRequests st) (sent st).

Definition with_nextTicks (q : list TickJob) (st : State) : State :=
  mkState (tags st) (dir st) (collapsibleRowsStartAt st) (buttonStatus st)
          (tagsContainerRef st) (listWidth st) q (focusRequests st) (sent st).

Definition nextTick (j : TickJob) (st : State) : State :=
  with_nextTicks (nextTicks st ++ [j]) st.

Definition sendCustomEvent (e : Sent) (st : State) : State :=
  mkState (tags st) (dir st) (collapsibleRowsStartAt st) (buttonStatus st)
          (tagsContainerRef st) (listWidth st) (nextTicks st) (focusRequests st)
          (sent st ++ [e]).

Definition focusElement (target : option nat) (st : State) : State :=
  mkState (tags st) (dir st) (collapsibleRowsStartAt st) (buttonStatus st)
          (tagsContainerRef st) (listWidth st) (nextTicks st)
          (focusRequests st ++ [target]) (sent st).

Definition init (ts : list Tag) (d : string) (mounted : bool) : State :=
  mkState ts d None Show mounted None [] [] [].

(** [onMounted]: [children] are the container's children at that time. *)
Definition onMounted (children : list HTMLElement) (st : State) : State :=
  if tagsContainerRef st
  then with_rows (Some (findRowStartsAt (dir st) children)) st
  else st.

Definition handleClick (st : State) : State :=
  let st1 :=
    with_button (match buttonStatus st with Show => Hide | Hide => Show end) st in
  let st2 :=
    sendCustomEvent
      (ToggleTagExpansion
         (match buttonStatus st1 with Show => "collapsed" | Hide => "expanded" end))
      st1 in
  match buttonStatus st2 with
  | Hide =>
      if Js.truthy_index (collapsibleRowsStartAt st2)
      then nextTick FocusFourthRow st2
      else st2
  | Show => st2
  end.

(** The resize observer's callback. *)
Definition onResize (width : float) (st : State) : State :=
  with_listWidth (Some width) st.

Definition isWidening (newWidth oldWidth : option float) : bool :=
  match oldWidth, newWidth with
  | Some o, Some n => Js.truthy o && Js.truthy n && (o <? n)%float
  | _, _ => false
  end.

(** The callback of [watchDebounced(listWidth, ...)]. *)
Definition onListWidth (newWidth oldWidth : option float) (st : State) : State :=
  if negb (tagsContainerRef st) then st
  else
    let st1 :=
      if isWidening newWidth oldWidth
      then with_rows (Some (List.length (normalizedTags st))) st
      else st in
    nextTick Remeasure st1.

(** One queued [nextTick] callback runs against the rendered children. *)
Definition runJob (j : TickJob) (children : list HTMLElement) (st : State) : State :=
  match j with
  | Remeasure =>
      if tagsContainerRef st
      then with_rows (Some (findRowStartsAt (dir st) children)) st
      else st
  | FocusFourthRow =>
      match collapsibleRowsStartAt st with
      | Some (S k) =>
          if tagsContainerRef st && Nat.ltb (S k) (List.length children)
          then focusElement (Some (S k)) st
          else focusElement None st
      | _ => st
      end
  end.

Definition runNextTick (children : list HTMLElement) (st : State) : State :=
  match nextTicks st with
  | [] => st
  | j :: q => runJob j children (with_nextTicks q st)
  end.

Inductive Action : Type :=
| AMounted (children : list HTMLElement)
| AClick
| AResize (width : float)
| AListWidth (newWidth oldWidth : option float)
| ANextTick (children : list HTMLElement).

Definition act (a : Action) (st : State) : State :=
  match a with
  | AMounted children => onMounted children st
  | AClick => handleClick st
  | AResize width => onResize width st
  | AListWidth newWidth oldWidth => onListWidth newWidth oldWidth st
  | ANextTick children => runNextTick children st
  end.

Fixpoint run (acts : list Action) (st : State) : State :=
  match acts with
  | [] => st
  | a :: rest => run rest (act a st)
  end.

(** The template renders one [<li>] per visible tag, so whenever the
    container is measured its children are as many as [visibleTags]. *)
Definition rendered (children : list HTMLElement) (st : State) : Prop :=
  List.length children = List.length (visibleTags st).

Fixpoint measuresRendered (acts : list Action) (st : State) : Prop :=
  match acts with
  | [] => True
  | a :: rest =>
      match a with
      | AMounted children | ANextTick children => rendered children st
      | _ => True
      end /\ measuresRendered rest (act a st)
  end.

(** *** Specification-level reading of the row-start rule *)

(** Element [i] starts a new row: it has no predecessor, or it sits
    less far along the inline axis than its predecessor. *)
Definition startsNewRow (d : string) (children : list HTMLElement) (i : nat) : bool :=
  match i with
  | O => match children with [] => false | _ => true end
  | S j =>
      match nth_error children j, nth_error children i with
      | Some p, Some c =>
          if String.eqb d "rtl"
          then offsetLeft c >? offsetLeft p
          else offsetLeft c <? offsetLeft p
      | _, _ => false
      end
  end.

(** Rows begun by the first [n] elements. *)
Definition rowsBegun (d : string) (children : list HTMLElement) (n : nat) : nat :=
  List.length (filter (startsNewRow d children) (seq 0 n)).

(** Widening as the specification words it: the new width is strictly
    greater than the previous one. *)
Definition strictlyWider (newWidth oldWidth : float) : bool :=
  (oldWidth <? newWidth)%float.

(** *** The range of the row-break index *)

(** What every reachable state satisfies: a set index is at most the
    number of tags and is zero only when there are no tags. *)
Definition indexInRange (st : State) : Prop :=
  match collapsibleRowsStartAt st with
  | Some k =>
      (k <= List.length (normalizedTags st))%nat /\
      (k = 0 -> List.length (normalizedTags st) = 0)%nat
  | None => True
  end.

(** [heightClass], with the class names as the source spells them. *)
Definition heightClass (st : State) : string :=
  if negb (truthyValue (hasOverflow st)) then "max-h-none"
  else
    match buttonStatus st with
    | Show => "max-h-[7.6875rem]"
    | Hide => "mah-h-none"
    end.

(** *** Vocabulary for layouts *)

(** The same layout seen in a container of width [w] laid out from the
    other side. *)
Definition mirror (w : Z) (e : HTMLElement) : HTMLElement :=
  mkElement (w - offsetLeft e).

(** A set index either leaves [ROWS_TO_DISPLAY] tags in view or hides
    nothing. *)
Definition indexKeepsRows (st : State) : Prop :=
  match collapsibleRowsStartAt st with
  | Some k =>
      (ROWS_TO_DISPLAY <= k)%nat \/ k = List.length (normalizedTags st)
  | None => True
  end.

End Tags.

(** * Properties of the audio track component *)

Module TrackProps.

Import Track.

(** *** Rebinding *)

(** C1 (amended).  Rebinding to a resource [a] sets the status from the
    resource's flags: paused and ended gives [Played], paused and not
    ended gives [Paused]; not paused gives [Playing] when the track has
    loaded and [Loading] otherwise, and in both of these cases one more
    run of the sync loop is queued and the displayed time is the
    resource's.  The prior status plays no role. *)
Theorem rebind_reconciles_status (st : State) (a : Resource) :
  status (rebind (Some a) st) = reconciledStatus (hasLoaded st) a /\
  rafQueue (rebind (Some a) st)
    = (if rPaused a then rafQueue st else S (rafQueue st)) /\
  currentTime (rebind (Some a) st) = rCurrentTime a /\
  obj (rebind (Some a) st) = Some a.
Proof.
  destruct st as [s ct ds pd hl o q ls cl lg], a as [i t d p e].
  unfold rebind, watchCallback, reconciledStatus, runCleanup.
  cbn [cleanup with_obj rPaused rEnded rDuration rCurrentTime rid hasLoaded rafQueue].
  destruct cl, (Js.truthy d && negb (Js.isNaN d)), p, e, hl; cbn; repeat split.
Qed.

(** C1 as stated fails: a resource that is not paused on a track that
    has not loaded yet yields [Loading], and a resource that reports
    ended without paused is not [Played]. *)
Lemma rebind_claimed_status_counterexample :
  (let a := mkResource 7 0%float 0%float false false in
   rPaused a = false /\
   status (rebind (Some a) (init None false None)) = Loading /\
   status (rebind (Some a) (init None false None)) <> claimedRebindStatus a) /\
  (let a := mkResource 7 0%float 0%float false true in
   rEnded a = true /\
   status (rebind (Some a) (init None true None)) = Playing /\
   status (rebind (Some a) (init None true None)) <> claimedRebindStatus a).
Proof. cbv; repeat split; discriminate. Qed.
(** *** Duration *)

Lemma duration_initially_default (propDur : option float) (loaded : bool)
      (o : option Resource) :
  duration (init propDur loaded o)
  = match propDur with Some ms => (ms / 1000)%float | None => 0%float end.
Proof. reflexivity. Qed.

(** The watcher's own guard keeps a NaN out of the displayed duration. *)
Lemma rebind_never_introduces_NaN (st : State) (audio : option Resource) :
  Js.isNaN (duration (rebind audio st)) = true -> Js.isNaN (duration st) = true.
Proof.
  destruct st as [s ct ds pd hl o q ls cl lg], audio as [[i t d p e]|];
    unfold rebind, watchCallback, runCleanup;
    cbn [cleanup with_obj rPaused rEnded rDuration rCurrentTime rid hasLoaded].
  - destruct cl, (Js.truthy d) eqn:Ht, (Js.isNaN d) eqn:Hn, p, e, hl; cbn;
      unfold duration, defaultDuration; cbn; intro H; congruence.
  - destruct cl; cbn; unfold duration, defaultDuration; cbn; trivial.
Qed.

(** C2.  The [durationchange] handler copies the resource's duration as it
    is: with 200 displayed and a resource whose duration reads NaN, the
    displayed duration becomes NaN, whereas rebinding to the very same
    resource leaves the 200 in place. *)
Theorem durationchange_overwrites_with_NaN :
  let a := mkResource 7 0%float 200%float true false in
  let st := rebind (Some a) (init None true None) in
  let st' := mediaProgress 0%float nan true false st in
  duration (init None true None) = 0%float /\
  duration st = 200%float /\
  duration st' = 200%float /\
  Js.isNaN (duration (eventMap EvDurationchange (mkEvent None) st')) = true /\
  duration (rebind (obj st') st') = 200%float.
Proof. cbv. repeat split. Qed.

(** *** The [timeupdate] handler *)

(** C4.  A [timeupdate] reaches the handler through the listener on an
    audio element [a], which is the event's target.  While the status is
    [Playing] the event changes nothing, so the displayed time is not
    overwritten.  For every other status the displayed time becomes the
    current time of [a], a [Played] status is downgraded to [Paused], any
    other status is kept, and nothing else changes. *)
Theorem timeupdate_syncs_unless_playing (st : State) (a : Resource) :
  (status st = Playing -> eventMap EvTimeupdate (event_from a) st = st) /\
  (status st <> Playing ->
     eventMap EvTimeupdate (event_from a) st
     = with_status (match status st with Played => Paused | s => s end)
         (with_currentTime (rCurrentTime a) st) /\
     currentTime (eventMap EvTimeupdate (event_from a) st) = rCurrentTime a /\
     status (eventMap EvTimeupdate (event_from a) st)
     = match status st with Played => Paused | s => s end).
Proof.
  destruct st as [s ct ds pd hl o q ls cl lg].
  cbn; unfold setTimeWhenPaused; cbn.
  split.
  - intro H; subst s; reflexivity.
  - intro Hs; destruct s; cbn; repeat split; congruence.
Qed.

Lemma timeupdate_syncs_unless_playing_witness :
  let a := mkResource 7 42%float 200%float true true in
  let st := with_status Played (init None true (Some a)) in
  let b := mkResource 7 9%float 200%float false false in
  currentTime (eventMap EvTimeupdate (event_from a) st) = 42%float /\
  status (eventMap EvTimeupdate (event_from a) st) = Paused /\
  currentTime
    (eventMap EvTimeupdate (event_from b) (with_status Playing (init None true (Some b))))
  = 0%float.
Proof.
  intros a st b.
  destruct (timeupdate_syncs_unless_playing st a) as (_ & H).
  destruct (H ltac:(discriminate)) as (_ & Ht & Hs).
  destruct (timeupdate_syncs_unless_playing
              (with_status Playing (init None true (Some b))) b) as (Hp & _).
  rewrite Ht, Hs, (Hp eq_refl). repeat split.
Defined.

(** *** Toggle *)

Lemma handleToggle_log (st : State) (state : option AudioStatus) :
  log (handleToggle state st)
  = log st ++ toggleEffects (obj st) (toggleTarget (status st) state).
Proof.
  destruct st as [s ct ds pd hl o q ls cl lg].
  destruct state as [[ | | | ]|]; [ | | | | destruct s ];
    unfold handleToggle, pause; cbn; try destruct o; cbn;
    rewrite <- ?app_assoc, ?app_nil_r; reflexivity.
Qed.

Lemma handleToggle_frame (st : State) (state : option AudioStatus) :
  status (handleToggle state st) = status st /\
  currentTime (handleToggle state st) = currentTime st /\
  durationSet (handleToggle state st) = durationSet st /\
  propDuration (handleToggle state st) = propDuration st /\
  hasLoaded (handleToggle state st) = hasLoaded st /\
  obj (handleToggle state st) = obj st /\
  rafQueue (handleToggle state st) = rafQueue st.
Proof.
  destruct st as [s ct ds pd hl o q ls cl lg].
  destruct state as [[ | | | ]|]; [ | | | | destruct s ];
    unfold handleToggle, pause; cbn; try destruct o; cbn; repeat split.
Qed.

(** C6.  A toggle resolves its target to the explicit one when given and
    otherwise to [Paused] from [Playing] and to [Playing] from [Paused] or
    [Played].  Target [Playing] makes exactly the play call followed by
    the analytics event [play]; target [Paused] makes the pause call on
    the bound resource (there is nothing to call when none is bound)
    followed by [pause]; every other resolved target makes no call and
    emits nothing.  The view state itself is not touched. *)
Theorem handleToggle_policy (st : State) (state : option AudioStatus) :
  toggleTarget Playing None = Some Paused /\
  toggleTarget Paused None = Some Playing /\
  toggleTarget Played None = Some Playing /\
  (forall s t, toggleTarget s (Some t) = Some t) /\
  log (handleToggle state st)
  = log st ++
    match toggleTarget (status st) state with
    | Some Playing => [PlayAudio (obj st); Analytics IPlay]
    | Some Paused =>
        match obj st with
        | Some a => [ResourcePause (rid a); Analytics IPause]
        | None => [Analytics IPause]
        end
    | Some Played | Some Loading | None => []
    end /\
  view (handleToggle state st) = view st /\
  obj (handleToggle state st) = obj st.
Proof.
  repeat (split; [ reflexivity | ]).
  destruct (handleToggle_frame st state) as (Hs & Ht & Hd & Hp & _ & Ho & _).
  split; [ | split ].
  - rewrite handleToggle_log. unfold toggleEffects.
    destruct (toggleTarget (status st) state) as [[ | | | ]|]; reflexivity.
  - unfold view, duration, defaultDuration. rewrite Hs, Ht, Hd, Hp. reflexivity.
  - exact Ho.
Qed.

(** C10.  With no explicit target and the status [Loading], a toggle
    returns the very state it was given: status, displayed time and
    duration, resource and effect log are all as before. *)
Theorem handleToggle_loading_noop (st : State) :
  status st = Loading -> handleToggle None st = st.
Proof.
  intro H. unfold handleToggle. rewrite H. reflexivity.
Qed.

Lemma handleToggle_loading_noop_witness :
  let a := mkResource 7 3%float 200%float false false in
  let st := rebind (Some a) (init None false None) in
  status st = Loading /\ handleToggle None st = st /\ log (handleToggle None st) = [].
Proof.
  intros a st.
  assert (H : status st = Loading) by reflexivity.
  split; [ exact H | ].
  rewrite (handleToggle_loading_noop st H). split; reflexivity.
Defined.

(** *** Seek *)

(** C8 (amended).  With a resource bound, a fraction between 0 and 1 and
    a finite product of the fraction and the displayed duration, seeking
    returns normally, has written that product into the resource's
    current time and has emitted exactly the analytics event [seek],
    leaving the view state alone.  With no resource bound it returns
    normally with the state unchanged, for every fraction.  Seeking to
    0.5 with 200 displayed puts the resource at 100. *)
Theorem handleSeeked_sets_time (frac : float) (st : State) :
  (forall a,
     obj st = Some a ->
     (0 <=? frac)%float = true -> (frac <=? 1)%float = true ->
     PrimFloat.is_finite (frac * duration st)%float = true ->
     exists st',
       handleSeeked frac st = Normal st' /\
       obj st' = Some (set_rCurrentTime (frac * duration st)%float a) /\
       log st' = log st ++ [Analytics ISeek] /\
       view st' = view st) /\
  (obj st = None -> handleSeeked frac st = Normal st) /\
  (let a := mkResource 7 0%float 200%float true false in
   let st0 := rebind (Some a) (init None true None) in
   duration st0 = 200%float /\
   option_map rCurrentTime (obj (stateAfter (handleSeeked 0.5%float st0)))
   = Some 100%float).
Proof.
  split; [ | split ].
  - intros a Ha _ _ Hf. unfold handleSeeked, assignCurrentTime. rewrite Ha, Hf.
    eexists. split; [ reflexivity | ].
    destruct st as [s ct ds pd hl o q ls cl lg]; cbn. repeat split.
  - intro Ha. unfold handleSeeked. rewrite Ha. reflexivity.
  - cbv. split; reflexivity.
Qed.

Lemma handleSeeked_sets_time_witness :
  let a := mkResource 7 0%float 200%float true false in
  let st := rebind (Some a) (init None true None) in
  option_map rCurrentTime (obj (stateAfter (handleSeeked 0.25%float st)))
  = Some 50%float /\
  log (stateAfter (handleSeeked 0.25%float st)) = [Analytics ISeek] /\
  handleSeeked 0.25%float (init None true None) = Normal (init None true None).
Proof.
  intros a st.
  destruct (handleSeeked_sets_time 0.25%float st) as (H & _ & _).
  destruct (H a eq_refl eq_refl eq_refl eq_refl) as (st' & E & Ho & Hl & _).
  destruct (handleSeeked_sets_time 0.25%float (init None true None)) as (_ & Hn & _).
  rewrite E, (Hn eq_refl). cbn [stateAfter]. rewrite Ho, Hl. repeat split.
Defined.

(** C8 as stated fails: a resource whose duration is infinite passes the
    watcher's test, so infinity is displayed; seeking to 0.5 (or to 0,
    where the product is NaN) then ends in the TypeError of the
    assignment, with the resource's time still 0 and no [seek] event. *)
Lemma handleSeeked_infinite_duration_counterexample :
  let a := mkResource 7 0%float infinity true false in
  let st := rebind (Some a) (init None true None) in
  obj st = Some a /\
  duration st = infinity /\
  handleSeeked 0.5%float st = Throws st /\
  handleSeeked 0%float st = Throws st /\
  option_map rCurrentTime (obj (stateAfter (handleSeeked 0.5%float st)))
  = Some 0%float /\
  log (stateAfter (handleSeeked 0.5%float st)) = [].
Proof. cbv. repeat split. Qed.

(** *** The time-sync loop *)

Lemma updateTimeLoop_on (st : State) :
  loopGuard st = true ->
  exists a, obj st = Some a /\
    updateTimeLoop st
    = with_rafQueue (S (rafQueue st)) (with_currentTime (rCurrentTime a) st).
Proof.
  unfold loopGuard, updateTimeLoop. destruct (obj st) as [a|]; [ | discriminate ].
  intro H. rewrite H. exists a. split; reflexivity.
Qed.

Lemma updateTimeLoop_off (st : State) :
  loopGuard st = false -> updateTimeLoop st = st.
Proof.
  unfold loopGuard, updateTimeLoop. destruct (obj st) as [a|]; [ | reflexivity ].
  intro H. rewrite H. reflexivity.
Qed.

(** [n] queued callbacks run in a row. *)
Lemma callbacks_off (n : nat) (st : State) :
  loopGuard st = false -> Nat.iter n updateTimeLoop st = st.
Proof.
  intro G. induction n as [|n IH]; [ reflexivity | ].
  rewrite Nat.iter_succ, IH. apply updateTimeLoop_off, G.
Qed.

Lemma callbacks_on (n : nat) (st : State) (a : Resource) :
  loopGuard st = true -> obj st = Some a ->
  rafQueue (Nat.iter n updateTimeLoop st) = n + rafQueue st /\
  obj (Nat.iter n updateTimeLoop st) = Some a /\
  status (Nat.iter n updateTimeLoop st) = status st /\
  loopGuard (Nat.iter n updateTimeLoop st) = true /\
  (0 < n -> currentTime (Nat.iter n updateTimeLoop st) = rCurrentTime a).
Proof.
  intros G Ha. induction n as [|n (Hq & Ho & Hs & Hg & _)].
  - cbn. repeat split; auto. intro H; inversion H.
  - rewrite Nat.iter_succ.
    destruct (updateTimeLoop_on _ Hg) as (b & Hb & ->).
    rewrite Ho in Hb; inversion Hb; subst b. cbn.
    rewrite Hq. repeat split; auto.
Qed.

Lemma frame_off (st : State) :
  loopGuard st = false -> frame st = with_rafQueue 0 st.
Proof.
  intro G. unfold frame. apply callbacks_off.
  unfold loopGuard in *. exact G.
Qed.

Lemma frame_on (st : State) (a : Resource) :
  loopGuard st = true -> obj st = Some a ->
  rafQueue (frame st) = rafQueue st /\
  (0 < rafQueue st -> currentTime (frame st) = rCurrentTime a).
Proof.
  intros G Ha. unfold frame.
  destruct (callbacks_on (rafQueue st) (with_rafQueue 0 st) (a := a))
    as (Hq & _ & _ & _ & Ht); auto.
  split; [ rewrite Hq; cbn; lia | exact Ht ].
Qed.

Lemma quiet_step_keeps_idle (s : Step) (st : State) :
  startsLoop s = false -> rafQueue st = 0 -> rafQueue (step s st) = 0.
Proof.
  intros Hq H0.
  destruct s as [name event | | audio | t d p e | state | frac]; cbn in *.
  - destruct name; try discriminate; cbn; auto.
    + unfold setTimeWhenPaused.
      destruct (negb _), (target event); cbn; auto.
      destruct (status_eqb _ Played); cbn; auto.
    + unfold setDuration. destruct (obj st); cbn; auto.
  - unfold frame. rewrite H0. cbn. reflexivity.
  - discriminate.
  - unfold mediaProgress. destruct (obj st); cbn; auto.
  - destruct (handleToggle_frame st state) as (_ & _ & _ & _ & _ & _ & ->). exact H0.
  - unfold handleSeeked, assignCurrentTime.
    destruct (obj st); [ destruct (PrimFloat.is_finite _) | ]; cbn; auto.
Qed.

Lemma quiet_run_keeps_idle (steps : list Step) (st : State) :
  forallb (fun s => negb (startsLoop s)) steps = true ->
  rafQueue st = 0 -> rafQueue (run steps st) = 0.
Proof.
  revert st. induction steps as [|s rest IH]; cbn; intros st Hq H0; [ exact H0 | ].
  apply andb_prop in Hq. destruct Hq as (Hs & Hr).
  apply IH; [ exact Hr | ].
  apply quiet_step_keeps_idle; [ | exact H0 ].
  destruct (startsLoop s); [ discriminate | reflexivity ].
Qed.

(** C9.  In the state reached by any interleaving of events, frames,
    rebindings and user actions: a run of the loop callback with a
    resource bound and status [Playing] or [Loading] stores the resource's
    current time as the displayed time and queues itself once more;
    otherwise it changes nothing and queues nothing.  Hence a frame keeps
    every queued callback alive in the first case and leaves none in the
    second, after which no callback is queued again until a [play] event
    or a rebinding restarts the loop. *)
Theorem updateTimeLoop_self_terminating (steps : list Step) (st0 : State) :
  let st := run steps st0 in
  (loopGuard st = true ->
     exists a, obj st = Some a /\
       currentTime (updateTimeLoop st) = rCurrentTime a /\
       rafQueue (updateTimeLoop st) = S (rafQueue st) /\
       status (updateTimeLoop st) = status st /\
       rafQueue (frame st) = rafQueue st /\
       (0 < rafQueue st -> currentTime (frame st) = rCurrentTime a)) /\
  (loopGuard st = false ->
     updateTimeLoop st = st /\
     frame st = with_rafQueue 0 st /\
     forall more,
       forallb (fun s => negb (startsLoop s)) more = true ->
       rafQueue (run more (frame st)) = 0) /\
  (loopGuard st = true <->
     (exists a, obj st = Some a) /\ (status st = Playing \/ status st = Loading)).
Proof.
  intro st. split; [ | split ].
  - intro G. destruct (updateTimeLoop_on st G) as (a & Ha & E).
    exists a. rewrite E. cbn.
    destruct (frame_on st G Ha) as (Hq & Ht). repeat split; auto.
  - intro G. split; [ apply updateTimeLoop_off, G | ].
    split; [ apply frame_off, G | ].
    intros more Hm. apply quiet_run_keeps_idle; [ exact Hm | ].
    rewrite (frame_off st G). reflexivity.
  - unfold loopGuard. destruct (obj st) as [a|]; split.
    + intro H. split; [ exists a; reflexivity | ].
      destruct (status st); cbn in H; auto; discriminate.
    + intros (_ & [H | H]); rewrite H; reflexivity.
    + discriminate.
    + intros ((a & Ha) & _). discriminate.
Qed.

Lemma updateTimeLoop_self_terminating_witness :
  let a := mkResource 7 3%float 200%float false false in
  let steps := [SRebind (Some a); SFrame; SMedia 4%float 200%float false false;
                SFrame; SEvent EvPause (event_from a)] in
  let st := run steps (init None true None) in
  loopGuard st = false /\
  rafQueue st = 1 /\
  rafQueue (run [SFrame; SEvent EvWaiting (event_from a); SFrame] st) = 0 /\
  loopGuard (run [SRebind (Some a); SFrame] (init None true None)) = true /\
  rafQueue (frame (run [SRebind (Some a); SFrame] (init None true None))) = 1.
Proof.
  intros a steps st.
  assert (G : loopGuard st = false) by reflexivity.
  destruct (updateTimeLoop_self_terminating steps (init None true None))
    as (_ & Hoff & _).
  destruct (Hoff G) as (_ & _ & Hquiet).
  destruct (updateTimeLoop_self_terminating [SRebind (Some a); SFrame]
              (init None true None)) as (Hon & _ & _).
  destruct (Hon eq_refl) as (b & _ & _ & _ & _ & Hq & _).
  split; [ exact G | ].
  split; [ reflexivity | ].
  split; [ exact (Hquiet [SEvent EvWaiting (event_from a); SFrame] eq_refl) | ].
  split; [ reflexivity | ].
  cbn zeta in Hq. rewrite Hq. reflexivity.
Defined.

End TrackProps.

(** * Properties of the collapsible tag section *)

Module TagsProps.

Import Tags.

Open Scope nat_scope.

(** Counting rows one element further. *)
Lemma rowsBegun_succ (d : string) (children : list HTMLElement) (n : nat) :
  rowsBegun d children (S n)
  = rowsBegun d children n + (if startsNewRow d children n then 1 else 0).
Proof.
  unfold rowsBegun. rewrite seq_S, filter_app, length_app. cbn.
  destruct (startsNewRow d children n); reflexivity.
Qed.

Lemma rowsBegun_le (d : string) (children : list HTMLElement) (n : nat) :
  rowsBegun d children n <= n.
Proof.
  induction n as [|n IH]; [ reflexivity | ].
  rewrite rowsBegun_succ. destruct (startsNewRow d children n); lia.
Qed.

Lemma rowsBegun_mono (d : string) (children : list HTMLElement) (m n : nat) :
  m <= n -> rowsBegun d children m <= rowsBegun d children n.
Proof.
  induction 1 as [|n _ IH]; [ reflexivity | ].
  rewrite rowsBegun_succ. lia.
Qed.

(** The test made by the loop body on the element at position
    [length pre] is the row-start rule. *)
Lemma loop_test_is_startsNewRow (d : string) (pre rest : list HTMLElement)
      (child : HTMLElement) :
  match match List.length pre with
        | O => None
        | S j => nth_error (pre ++ child :: rest) j
        end with
  | None => true
  | Some p => isFurtherInline d p child
  end = startsNewRow d (pre ++ child :: rest) (List.length pre).
Proof.
  destruct pre as [|x pre] using rev_ind; [ reflexivity | ].
  clear IHpre. rewrite length_app, Nat.add_comm. cbn [List.length Nat.add].
  unfold startsNewRow.
  replace (nth_error ((pre ++ [x]) ++ child :: rest) (List.length pre))
    with (Some x).
  2:{ rewrite <- app_assoc. cbn. rewrite nth_error_app2 by lia.
      rewrite Nat.sub_diag. reflexivity. }
  replace (nth_error ((pre ++ [x]) ++ child :: rest) (S (List.length pre)))
    with (Some child).
  2:{ rewrite nth_error_app2; rewrite length_app; cbn [List.length]; [ | lia ].
      replace (S (List.length pre) - (List.length pre + 1)) with 0 by lia.
      reflexivity. }
  unfold isFurtherInline. destruct (String.eqb d "rtl").
  - rewrite Z.gtb_ltb. reflexivity.
  - rewrite Z.gtb_ltb. reflexivity.
Qed.

Lemma rowLoop_spec (d : string) (children : list HTMLElement) :
  forall rest pre rc,
    children = pre ++ rest ->
    rc = rowsBegun d children (List.length pre) ->
    rc < ROWS_TO_DISPLAY + 1 ->
    match rowLoop d
            (match List.length pre with O => None | S j => nth_error children j end)
            rest (List.length pre) rc with
    | Some r =>
        List.length pre <= r < List.length children /\
        startsNewRow d children r = true /\
        rowsBegun d children r = ROWS_TO_DISPLAY
    | None => rowsBegun d children (List.length children) < ROWS_TO_DISPLAY + 1
    end.
Proof.
  induction rest as [|child rest IH]; intros pre rc Hc Hrc Hlt.
  - cbn. rewrite app_nil_r in Hc. subst. exact Hlt.
  - cbn [rowLoop].
    pose proof (loop_test_is_startsNewRow d pre rest child) as Htest.
    rewrite <- Hc in Htest.
    set (prev := match List.length pre with O => None | S j => nth_error children j end) in *.
    assert (Hcount :
      match prev with
      | None => S rc
      | Some p => if isFurtherInline d p child then S rc else rc
      end = rowsBegun d children (S (List.length pre))).
    { rewrite rowsBegun_succ, <- Hrc, <- Htest.
      destruct prev as [p|]; [ destruct (isFurtherInline d p child) | ]; lia. }
    rewrite Hcount.
    destruct (Nat.eqb (rowsBegun d children (S (List.length pre)))
                      (ROWS_TO_DISPLAY + 1)) eqn:E.
    + apply Nat.eqb_eq in E. rewrite rowsBegun_succ in E.
      assert (Hlen : List.length pre < List.length children).
      { rewrite Hc, length_app. cbn. lia. }
      destruct (startsNewRow d children (List.length pre)); [ | lia ].
      repeat split; try lia.
    + apply Nat.eqb_neq in E.
      specialize (IH (pre ++ [child]) (rowsBegun d children (S (List.length pre)))).
      rewrite length_app, Nat.add_comm in IH. cbn [List.length Nat.add] in IH.
      replace (nth_error children (List.length pre)) with (Some child) in IH.
      2:{ rewrite Hc, nth_error_app2 by lia. rewrite Nat.sub_diag. reflexivity. }
      assert (Hlt' : rowsBegun d children (S (List.length pre)) < ROWS_TO_DISPLAY + 1).
      { rewrite rowsBegun_succ in *.
        destruct (startsNewRow d children (List.length pre)); lia. }
      specialize (IH ltac:(rewrite <- app_assoc; exact Hc) eq_refl Hlt').
      destruct (rowLoop d (Some child) rest (S (List.length pre))
                  (rowsBegun d children (S (List.length pre)))) as [r|].
      * destruct IH as (Hr & Hs & Hb). repeat split; try lia; assumption.
      * exact IH.
Qed.

(** The two ways [findRowStartsAt] ends. *)
Lemma findRowStartsAt_cases (d : string) (children : list HTMLElement) :
  (findRowStartsAt d children < List.length children /\
   startsNewRow d children (findRowStartsAt d children) = true /\
   rowsBegun d children (findRowStartsAt d children) = ROWS_TO_DISPLAY)
  \/
  (findRowStartsAt d children = List.length children /\
   rowsBegun d children (List.length children) < ROWS_TO_DISPLAY + 1).
Proof.
  destruct children as [|x xs].
  - right. split; reflexivity || (cbn; lia).
  - set (children := x :: xs).
    assert (E : findRowStartsAt d children
                = match rowLoop d None children 0 0 with
                  | Some i => i
                  | None => List.length children
                  end) by reflexivity.
    rewrite E. clearbody children. clear E.
    pose proof (rowLoop_spec d (children := children) children [] (rc := 0)
                  eq_refl eq_refl ltac:(cbn; lia)) as H.
    cbn [List.length] in H.
    destruct (rowLoop d None children 0 0) as [r|].
    + left. destruct H as (Hr & Hs & Hb). repeat split; [ lia | exact Hs | exact Hb ].
    + right. split; [ reflexivity | exact H ].
Qed.

(** C5.  With [r] the index [findRowStartsAt] returns: either [r] is the
    position of an element that starts a new row and is the first one at
    which the number of rows begun reaches [ROWS_TO_DISPLAY + 1 = 4], or
    fewer than four rows begin anywhere and [r] is the number of elements.
    An element starts a row when it is the first one or when its offset is
    below its predecessor's, above it when the direction is ["rtl"]. *)
Theorem findRowStartsAt_counts_rows (d : string) (children : list HTMLElement) :
  ROWS_TO_DISPLAY + 1 = 4 /\
  (forall i p c,
      nth_error children i = Some p -> nth_error children (S i) = Some c ->
      startsNewRow d children 0 = true /\
      startsNewRow d children (S i)
      = if String.eqb d "rtl"
        then Z.ltb (offsetLeft p) (offsetLeft c)
        else Z.ltb (offsetLeft c) (offsetLeft p)) /\
  ((findRowStartsAt d children < List.length children /\
    startsNewRow d children (findRowStartsAt d children) = true /\
    rowsBegun d children (S (findRowStartsAt d children)) = ROWS_TO_DISPLAY + 1 /\
    forall j, j < findRowStartsAt d children ->
              rowsBegun d children (S j) < ROWS_TO_DISPLAY + 1)
   \/
   (findRowStartsAt d children = List.length children /\
    rowsBegun d children (List.length children) < ROWS_TO_DISPLAY + 1)).
Proof.
  split; [ reflexivity | split ].
  - intros i p c Hp Hc. split.
    + destruct children; [ destruct i; discriminate | reflexivity ].
    + unfold startsNewRow. rewrite Hp, Hc.
      destruct (String.eqb d "rtl"); [ apply Z.gtb_ltb | reflexivity ].
  - destruct (findRowStartsAt_cases d children) as [(Hr & Hs & Hb) | H].
    + left. split; [ exact Hr | split; [ exact Hs | split ] ].
      * rewrite rowsBegun_succ, Hs, Hb. reflexivity.
      * intros j Hj.
        pose proof (rowsBegun_mono d children (m := S j)
                      (n := findRowStartsAt d children) ltac:(lia)) as Hm.
        rewrite Hb in Hm. unfold ROWS_TO_DISPLAY in *. lia.
    + right. exact H.
Qed.

Lemma findRowStartsAt_counts_rows_witness :
  let kids := map mkElement [0; 50; 0; 50; 20; 0; 50]%Z in
  findRowStartsAt "ltr" kids = 5 /\
  startsNewRow "ltr" kids 5 = (0 <? 20)%Z /\
  startsNewRow "rtl" kids 1 = (0 <? 50)%Z.
Proof.
  intro kids.
  destruct (findRowStartsAt_counts_rows "ltr" kids) as (_ & Hrule & _).
  destruct (Hrule 4 (mkElement 20) (mkElement 0) eq_refl eq_refl) as (_ & H5).
  destruct (findRowStartsAt_counts_rows "rtl" kids) as (_ & Hrtl & _).
  destruct (Hrtl 0 (mkElement 0) (mkElement 50) eq_refl eq_refl) as (_ & H1).
  split; [ reflexivity | split ].
  - rewrite H5. reflexivity.
  - rewrite H1. reflexivity.
Defined.

(** *** The overflow state *)

Lemma findRowStartsAt_le (d : string) (children : list HTMLElement) :
  findRowStartsAt d children <= List.length children.
Proof.
  destruct (findRowStartsAt_cases d children) as [(H & _) | (H & _)]; lia.
Qed.

Lemma findRowStartsAt_zero (d : string) (children : list HTMLElement) :
  findRowStartsAt d children = 0 -> children = [].
Proof.
  intro H0.
  destruct (findRowStartsAt_cases d children) as [(_ & _ & Hb) | (Hl & _)].
  - rewrite H0 in Hb. discriminate.
  - rewrite H0 in Hl. destruct children; [ reflexivity | discriminate ].
Qed.

Lemma visibleTags_length (st : State) :
  List.length (visibleTags st) <= List.length (normalizedTags st) /\
  (List.length (visibleTags st) = 0 -> List.length (normalizedTags st) = 0).
Proof.
  unfold visibleTags.
  destruct (collapsibleRowsStartAt st) as [[|k]|], (buttonStatus st); try lia.
  rewrite length_firstn. split; [ lia | ].
  destruct (normalizedTags st); cbn; lia.
Qed.

Lemma measured_in_range (st st' : State) (children : list HTMLElement) :
  rendered children st ->
  tags st' = tags st ->
  collapsibleRowsStartAt st' = Some (findRowStartsAt (dir st) children) ->
  indexInRange st'.
Proof.
  unfold rendered, indexInRange, normalizedTags. intros Hr Ht ->. rewrite Ht.
  destruct (visibleTags_length st) as (Hle & Hz). unfold normalizedTags in *.
  pose proof (findRowStartsAt_le (dir st) children).
  split; [ lia | ].
  intro H0. apply findRowStartsAt_zero in H0. subst children.
  apply Hz. rewrite <- Hr. reflexivity.
Qed.

Lemma act_keeps_tags (a : Action) (st : State) : tags (act a st) = tags st.
Proof.
  destruct a as [children | | width | n o | children]; cbn.
  - unfold onMounted. destruct (tagsContainerRef st); reflexivity.
  - unfold handleClick. destruct (buttonStatus st); cbn; [ | reflexivity ].
    destruct (Js.truthy_index _); reflexivity.
  - reflexivity.
  - unfold onListWidth. destruct (negb _); [ reflexivity | ].
    destruct (isWidening n o); reflexivity.
  - unfold runNextTick. destruct (nextTicks st) as [|[|] q]; cbn; [ reflexivity | | ].
    + destruct (tagsContainerRef st); reflexivity.
    + destruct (collapsibleRowsStartAt st) as [[|k]|]; try reflexivity.
      destruct (_ && _); reflexivity.
Qed.

Lemma act_keeps_range (a : Action) (st : State) :
  match a with
  | AMounted children | ANextTick children => rendered children st
  | _ => True
  end ->
  indexInRange st -> indexInRange (act a st).
Proof.
  destruct a as [children | | width | n o | children]; cbn; intros Hr Hi.
  - unfold onMounted. destruct (tagsContainerRef st); [ | exact Hi ].
    eapply measured_in_range; [ exact Hr | reflexivity | reflexivity ].
  - unfold handleClick. destruct (buttonStatus st); cbn; [ | exact Hi ].
    destruct (Js.truthy_index _); exact Hi.
  - exact Hi.
  - unfold onListWidth. destruct (negb _); [ exact Hi | ].
    destruct (isWidening n o); [ | exact Hi ].
    unfold indexInRange; cbn. split; [ reflexivity | trivial ].
  - unfold runNextTick. destruct (nextTicks st) as [|[|] q]; cbn; [ exact Hi | | ].
    + destruct (tagsContainerRef st); [ | exact Hi ].
      eapply measured_in_range; [ exact Hr | reflexivity | reflexivity ].
    + destruct (collapsibleRowsStartAt st) as [[|k]|] eqn:E; try exact Hi.
      unfold indexInRange in *. rewrite E in Hi.
      destruct (_ && _); cbn; rewrite E; exact Hi.
Qed.

Lemma run_keeps_range (acts : list Action) (st : State) :
  measuresRendered acts st -> indexInRange st -> indexInRange (run acts st).
Proof.
  revert st. induction acts as [|a rest IH]; cbn; intros st Hm Hi; [ exact Hi | ].
  destruct Hm as (Ha & Hrest).
  apply IH; [ exact Hrest | ]. apply act_keeps_range; assumption.
Qed.

Lemma hasOverflow_in_range (st : State) (k : nat) :
  indexInRange st -> collapsibleRowsStartAt st = Some k ->
  (truthyValue (hasOverflow st) = true <-> k < List.length (normalizedTags st)).
Proof.
  unfold indexInRange, hasOverflow. intros Hi E. rewrite E in *.
  destruct Hi as (Hle & Hz). destruct k as [|k]; cbn [truthyValue].
  - rewrite (Hz eq_refl). split; [ discriminate | lia ].
  - apply Nat.ltb_lt.
Qed.

(** C3.  Start from a fresh component with any tag list and let it mount,
    be clicked, be resized and re-measured in any order, each measurement
    seeing one child per visible tag.  Then whenever the row-break index
    is set it is at most the number of normalized tags, and overflow is
    reported exactly when it is strictly below that number. *)
Theorem rowBreak_in_range_and_overflow
        (ts : list Tag) (d : string) (mounted : bool) (acts : list Action) (k : nat) :
  measuresRendered acts (init ts d mounted) ->
  collapsibleRowsStartAt (run acts (init ts d mounted)) = Some k ->
  0 <= k <= List.length (normalizedTags (run acts (init ts d mounted))) /\
  (truthyValue (hasOverflow (run acts (init ts d mounted))) = true
   <-> k < List.length (normalizedTags (run acts (init ts d mounted)))).
Proof.
  intros Hm Hk.
  assert (Hi : indexInRange (run acts (init ts d mounted))).
  { apply run_keeps_range; [ exact Hm | exact I ]. }
  split.
  - unfold indexInRange in Hi. rewrite Hk in Hi. lia.
  - apply hasOverflow_in_range; assumption.
Qed.

Lemma rowBreak_in_range_and_overflow_witness :
  let ts := map (fun n => mkTag n None)
                ["cat"; "Cat"; "dog"; "cat"; "sun"; "sea"; "sky"; "ice"]%string in
  let kids := map mkElement [0; 50; 0; 50; 20; 0; 50]%Z in
  let st := run [AMounted kids] (init ts "ltr" true) in
  List.length (normalizedTags st) = 7 /\
  collapsibleRowsStartAt st = Some 5 /\
  truthyValue (hasOverflow st) = true /\
  List.length (visibleTags st) = 5.
Proof.
  intros ts kids st.
  assert (Hm : measuresRendered [AMounted kids] (init ts "ltr" true)).
  { split; [ reflexivity | exact I ]. }
  assert (Hk : collapsibleRowsStartAt st = Some 5) by reflexivity.
  destruct (rowBreak_in_range_and_overflow ts "ltr" true [AMounted kids] Hm Hk)
    as (_ & Hiff).
  split; [ reflexivity | split; [ exact Hk | split; [ | reflexivity ] ] ].
  apply Hiff. apply Nat.ltb_lt. reflexivity.
Defined.

(** *** Resizing *)

Lemma visibleTags_all_revealed (st : State) :
  visibleTags (with_rows (Some (List.length (normalizedTags st))) st)
  = normalizedTags st.
Proof.
  unfold visibleTags.
  change (normalizedTags (with_rows (Some (List.length (normalizedTags st))) st))
    with (normalizedTags st).
  cbn [collapsibleRowsStartAt buttonStatus with_rows].
  destruct (normalizedTags st) as [|x l]; [ reflexivity | ].
  cbn [List.length]. destruct (buttonStatus st); [ | reflexivity ].
  cbn [firstn]. rewrite firstn_all. reflexivity.
Qed.

(** C7 (amended).  With the container mounted and two successive measured
    widths: when both are non-zero numbers and the new one is strictly
    greater, the callback sets the row-break index to the number of tags,
    so that every tag is rendered, and queues the re-measurement for the
    next render pass; when the new width is not strictly greater, or one of
    the two is zero, the index is left alone and only the re-measurement is
    queued.  The queued re-measurement then stores the measured index. *)
Theorem onListWidth_reveals_when_widening (st : State) (n o : float) :
  tagsContainerRef st = true ->
  (Js.truthy o = true -> Js.truthy n = true -> strictlyWider n o = true ->
     collapsibleRowsStartAt (onListWidth (Some n) (Some o) st)
       = Some (List.length (normalizedTags st)) /\
     visibleTags (onListWidth (Some n) (Some o) st) = normalizedTags st /\
     nextTicks (onListWidth (Some n) (Some o) st) = nextTicks st ++ [Remeasure]) /\
  (strictlyWider n o = false \/ Js.truthy o = false \/ Js.truthy n = false ->
     onListWidth (Some n) (Some o) st = nextTick Remeasure st) /\
  (forall children,
     nextTicks st = [] ->
     collapsibleRowsStartAt
       (runNextTick children (onListWidth (Some n) (Some o) st))
     = Some (findRowStartsAt (dir st) children)).
Proof.
  intro Hc. unfold onListWidth, isWidening, strictlyWider. rewrite Hc.
  cbn [negb]. split; [ | split ].
  - intros Ho Hn Hw. rewrite Ho, Hn, Hw. cbn [andb].
    split; [ reflexivity | split; [ | reflexivity ] ].
    apply visibleTags_all_revealed.
  - intros [H | [H | H]]; rewrite H; rewrite ?andb_false_r; reflexivity.
  - intros children Hq.
    destruct (Js.truthy o && Js.truthy n && (o <? n)%float);
      unfold runNextTick, nextTick; cbn; rewrite Hq; cbn; rewrite Hc; reflexivity.
Qed.

Lemma onListWidth_reveals_when_widening_witness :
  let ts := map (fun n => mkTag n None)
                ["cat"; "Cat"; "dog"; "sun"; "sea"; "sky"; "ice"]%string in
  let kids := map mkElement [0; 50; 0; 50; 20; 0; 50]%Z in
  let wide := map mkElement [0; 50; 100; 150; 0; 50; 100]%Z in
  let st := run [AMounted kids] (init ts "ltr" true) in
  collapsibleRowsStartAt st = Some 5 /\
  collapsibleRowsStartAt (onListWidth (Some 480%float) (Some 320%float) st) = Some 7 /\
  collapsibleRowsStartAt (onListWidth (Some 320%float) (Some 480%float) st) = Some 5 /\
  collapsibleRowsStartAt
    (runNextTick wide (onListWidth (Some 480%float) (Some 320%float) st)) = Some 7.
Proof.
  intros ts kids wide st.
  destruct (onListWidth_reveals_when_widening st 480%float 320%float eq_refl)
    as (Hw & _ & Ht).
  destruct (Hw eq_refl eq_refl eq_refl) as (Hk & _ & _).
  destruct (onListWidth_reveals_when_widening st 320%float 480%float eq_refl)
    as (_ & Hn & _).
  split; [ reflexivity | split; [ | split ] ].
  - rewrite Hk. reflexivity.
  - rewrite (Hn (or_introl eq_refl)). reflexivity.
  - rewrite (Ht wide eq_refl). reflexivity.
Defined.

(** C7 as stated fails: going from a measured width of 0 to 100 is a strict
    increase, yet the index stays at 5 of 7 tags and only the
    re-measurement is queued. *)
Lemma widening_from_zero_counterexample :
  let ts := map (fun n => mkTag n None)
                ["cat"; "Cat"; "dog"; "sun"; "sea"; "sky"; "ice"]%string in
  let kids := map mkElement [0; 50; 0; 50; 20; 0; 50]%Z in
  let st := run [AMounted kids] (init ts "ltr" true) in
  strictlyWider 100%float 0%float = true /\
  tagsContainerRef st = true /\
  List.length (normalizedTags st) = 7 /\
  collapsibleRowsStartAt (onListWidth (Some 100%float) (Some 0%float) st) = Some 5 /\
  onListWidth (Some 100%float) (Some 0%float) st = nextTick Remeasure st.
Proof. repeat split. Qed.

End TagsProps.

(** * Further properties of the audio track component *)

Module TrackRuns.

Import Track.

Lemma updateTimeLoop_rest (st : State) : rest (updateTimeLoop st) = rest st.
Proof.
  unfold updateTimeLoop. destruct (obj st); [ | reflexivity ].
  destruct (_ || _); reflexivity.
Qed.

Lemma callbacks_rest (n : nat) (st : State) :
  rest (Nat.iter n updateTimeLoop st) = rest st.
Proof.
  induction n as [|n IH]; [ reflexivity | ].
  rewrite Nat.iter_succ, updateTimeLoop_rest. exact IH.
Qed.

Lemma frame_rest (st : State) : rest (frame st) = rest st.
Proof. unfold frame. rewrite callbacks_rest. reflexivity. Qed.

Lemma rest_eq (st' st : State) :
  rest st' = rest st ->
  status st' = status st /\ durationSet st' = durationSet st /\
  propDuration st' = propDuration st /\ hasLoaded st' = hasLoaded st /\
  obj st' = obj st /\ listeners st' = listeners st /\
  cleanup st' = cleanup st /\ log st' = log st.
Proof.
  unfold rest. intro H. injection H. intros. repeat split; assumption.
Qed.

(** *** Listeners *)

Lemma cleanup_listenersOf (r : nat) :
  filter (fun l : nat * EventName => negb (Nat.eqb (fst l) r)) (listenersOf r) = [].
Proof. cbn. rewrite Nat.eqb_refl. reflexivity. Qed.

Lemma rebind_settles (audio : option Resource) (st : State) :
  listenersSettled st ->
  listeners (rebind audio st)
  = match audio with Some a => listenersOf (rid a) | None => [] end /\
  cleanup (rebind audio st) = option_map rid audio.
Proof.
  unfold listenersSettled.
  destruct st as [s ct ds pd hl o q ls cl lg], audio as [[i t d p e]|];
    unfold rebind, watchCallback, runCleanup;
    cbn -[filter listenersOf map]; intro H; subst ls.
  - destruct cl as [r|]; cbn -[filter listenersOf map];
      rewrite ?cleanup_listenersOf;
      destruct (Js.truthy d && negb (Js.isNaN d)), p, e, hl;
      cbn -[filter listenersOf map]; split; reflexivity.
  - destruct cl as [r|]; cbn -[filter listenersOf map];
      rewrite ?cleanup_listenersOf; split; reflexivity.
Qed.

Lemma step_keeps_listeners (s : Step) (st : State) :
  isRebind s = false ->
  listeners (step s st) = listeners st /\ cleanup (step s st) = cleanup st.
Proof.
  intro Hs. destruct s as [name event | | audio | t d p e | state | frac];
    try discriminate; cbn.
  - destruct name; cbn.
    + unfold setPlaying.
      pose proof (updateTimeLoop_rest
                    (if hasLoaded st then with_status Playing st
                     else with_status Loading st)) as H.
      apply rest_eq in H. destruct H as (_ & _ & _ & _ & _ & Hl & Hc & _).
      rewrite Hl, Hc. destruct (hasLoaded st); split; reflexivity.
    + split; reflexivity.
    + split; reflexivity.
    + unfold setTimeWhenPaused. destruct (negb _), (target event); cbn;
        try (split; reflexivity).
      destruct (status_eqb _ Played); split; reflexivity.
    + unfold setDuration. destruct (obj st); split; reflexivity.
    + split; reflexivity.
    + split; reflexivity.
  - destruct (rest_eq (frame_rest st)) as (_ & _ & _ & _ & _ & Hl & Hc & _).
    split; assumption.
  - unfold mediaProgress. destruct (obj st); split; reflexivity.
  - destruct st as [s ct ds pd hl o q ls cl lg].
    destruct state as [[ | | | ]|]; [ | | | | destruct s ];
      unfold handleToggle, pause; cbn; try destruct o; cbn; split; reflexivity.
  - unfold handleSeeked, assignCurrentTime.
    destruct (obj st); [ destruct (PrimFloat.is_finite _) | ]; split; reflexivity.
Qed.

Lemma step_keeps_settled (s : Step) (st : State) :
  listenersSettled st -> listenersSettled (step s st).
Proof.
  intro H. destruct (isRebind s) eqn:E.
  - destruct s; try discriminate. cbn.
    destruct (rebind_settles audio H) as (Hl & Hc).
    unfold listenersSettled. rewrite Hl, Hc. destruct audio; reflexivity.
  - destruct (step_keeps_listeners s st E) as (Hl & Hc).
    unfold listenersSettled. rewrite Hl, Hc. exact H.
Qed.

Lemma run_keeps_settled (steps : list Step) (st : State) :
  listenersSettled st -> listenersSettled (run steps st).
Proof.
  revert st. induction steps as [|s more IH]; cbn; intros st H; [ exact H | ].
  apply IH, step_keeps_settled, H.
Qed.

Lemma run_keeps_listeners (steps : list Step) (st : State) :
  forallb (fun s => negb (isRebind s)) steps = true ->
  listeners (run steps st) = listeners st.
Proof.
  revert st. induction steps as [|s more IH]; cbn; intros st H; [ reflexivity | ].
  apply andb_prop in H. destruct H as (Hs & Hm).
  rewrite (IH _ Hm). apply step_keeps_listeners.
  destruct (isRebind s); [ discriminate | reflexivity ].
Qed.

(** X1.  However many resources were bound before, once the reference
    changes to [audio] the component listens on that resource alone, once
    per name of [eventMap], and on nothing when [audio] is absent; later
    events, frames and user actions leave the registrations alone. *)
Theorem listeners_follow_binding
        (propDur : option float) (loaded : bool) (o audio : option Resource)
        (before after : list Step) :
  forallb (fun s => negb (isRebind s)) after = true ->
  listeners (run after (rebind audio (run before (init propDur loaded o))))
  = match audio with
    | Some a => map (fun name => (rid a, name)) eventMap_keys
    | None => []
    end.
Proof.
  intro Ha. rewrite (run_keeps_listeners _ _ Ha).
  assert (Hs : listenersSettled (run before (init propDur loaded o))).
  { apply run_keeps_settled. reflexivity. }
  destruct (rebind_settles audio Hs) as (Hl & _). exact Hl.
Qed.

Lemma listeners_follow_binding_witness :
  let a := mkResource 1 0%float 200%float false false in
  let b := mkResource 2 5%float 90%float true false in
  listeners
    (run [SEvent EvPause (event_from b); SFrame]
       (rebind (Some b)
          (run [SRebind (Some a); SEvent EvPlay (event_from a); SFrame]
             (init None false None))))
  = [(2, EvPlay); (2, EvPause); (2, EvEnded); (2, EvTimeupdate);
     (2, EvDurationchange); (2, EvWaiting); (2, EvPlaying)].
Proof.
  intros a b.
  exact (listeners_follow_binding None false None (Some b)
           [SRebind (Some a); SEvent EvPlay (event_from a); SFrame]
           [SEvent EvPause (event_from b); SFrame] eq_refl).
Defined.

Lemma run_app (xs ys : list Step) (st : State) :
  run (xs ++ ys) st = run ys (run xs st).
Proof.
  revert st. induction xs as [|x xs IH]; cbn; intro st; [ reflexivity | apply IH ].
Qed.

Lemma setPlaying_rest (st : State) :
  rest (setPlaying st)
  = rest (with_status (if hasLoaded st then Playing else Loading) st).
Proof.
  unfold setPlaying. rewrite updateTimeLoop_rest. destruct (hasLoaded st); reflexivity.
Qed.

(** *** The displayed duration *)

Lemma step_keeps_duration (s : Step) (st : State) :
  isDurationchange s = false -> isRebind s = false ->
  duration (step s st) = duration st.
Proof.
  intros Hd Hr. unfold duration, defaultDuration.
  destruct s as [name event | | audio | t d p e | state | frac];
    try discriminate; cbn.
  - destruct name; try discriminate; cbn; try reflexivity.
    + destruct (rest_eq (setPlaying_rest st)) as (_ & -> & -> & _). reflexivity.
    + unfold setTimeWhenPaused. destruct (negb _), (target event); cbn;
        try reflexivity.
      destruct (status_eqb _ Played); reflexivity.
  - destruct (rest_eq (frame_rest st)) as (_ & -> & -> & _). reflexivity.
  - unfold mediaProgress. destruct (obj st); reflexivity.
  - destruct (TrackProps.handleToggle_frame st state) as (_ & _ & -> & -> & _).
    reflexivity.
  - unfold handleSeeked, assignCurrentTime.
    destruct (obj st); [ destruct (PrimFloat.is_finite _) | ]; reflexivity.
Qed.

Lemma NaN_traces_back (steps : list Step) (st : State) :
  forallb (fun s => negb (isDurationchange s)) steps = true ->
  Js.isNaN (duration (run steps st)) = true ->
  Js.isNaN (duration st) = true.
Proof.
  revert st. induction steps as [|s more IH]; cbn; intros st Hs Hn; [ exact Hn | ].
  apply andb_prop in Hs. destruct Hs as (Hd & Hm).
  specialize (IH _ Hm Hn).
  destruct (isRebind s) eqn:Er.
  - destruct s; try discriminate. cbn in IH.
    exact (TrackProps.rebind_never_introduces_NaN st audio IH).
  - rewrite step_keeps_duration in IH; [ exact IH | | exact Er ].
    destruct (isDurationchange s); [ discriminate | reflexivity ].
Qed.

(** X2.  A displayed duration that is a number stays a number along any
    run without a [durationchange] event: rebinding, the other events,
    frames, toggles and seeks never put a NaN there. *)
Theorem only_durationchange_brings_NaN (steps : list Step) (st : State) :
  forallb (fun s => negb (isDurationchange s)) steps = true ->
  Js.isNaN (duration st) = false ->
  Js.isNaN (duration (run steps st)) = false.
Proof.
  intros Hs Hn.
  destruct (Js.isNaN (duration (run steps st))) eqn:E; [ | reflexivity ].
  rewrite (NaN_traces_back steps st Hs E) in Hn. discriminate.
Qed.

Lemma only_durationchange_brings_NaN_witness :
  let a := mkResource 1 0%float nan false false in
  let steps := [SRebind (Some a); SEvent EvPlay (event_from a); SFrame;
                SSeek 0.5%float; SEvent EvEnded (event_from a)] in
  Js.isNaN (duration (run steps (init (Some 90000%float) true None))) = false.
Proof.
  intros a steps.
  exact (only_durationchange_brings_NaN steps
           (init (Some 90000%float) true None) eq_refl eq_refl).
Defined.

(** *** Time keeping *)

Lemma round_keeps_sync (st : State) (t d : float) (p e : bool) :
  loopGuard st = true -> 0 < rafQueue st ->
  let st' := run [SMedia t d p e; SFrame] st in
  loopGuard st' = true /\ rafQueue st' = rafQueue st /\
  status st' = status st /\ currentTime st' = t.
Proof.
  intros G Q. cbn.
  unfold loopGuard in G. destruct (obj st) as [a|] eqn:Ho; [ | discriminate ].
  set (st1 := mediaProgress t d p e st).
  assert (Ho1 : obj st1 = Some (mkResource (rid a) t d p e)).
  { unfold st1, mediaProgress. rewrite Ho. reflexivity. }
  assert (Hs1 : status st1 = status st).
  { unfold st1, mediaProgress. rewrite Ho. reflexivity. }
  assert (Hq1 : rafQueue st1 = rafQueue st).
  { unfold st1, mediaProgress. rewrite Ho. reflexivity. }
  assert (G1 : loopGuard st1 = true).
  { unfold loopGuard. rewrite Ho1, Hs1. exact G. }
  destruct (TrackProps.frame_on st1 G1 Ho1) as (Hq & Ht).
  destruct (rest_eq (frame_rest st1)) as (Hs & _ & _ & _ & Hob & _).
  repeat split.
  - unfold loopGuard. rewrite Hob, Ho1, Hs, Hs1. exact G.
  - rewrite Hq. exact Hq1.
  - rewrite Hs. exact Hs1.
  - rewrite Ht; [ reflexivity | rewrite Hq1; exact Q ].
Qed.

Lemma playback_keeps_loop (ms : list (float * float * bool * bool)) (st : State) :
  loopGuard st = true -> 0 < rafQueue st ->
  loopGuard (run (playback ms) st) = true /\
  rafQueue (run (playback ms) st) = rafQueue st /\
  status (run (playback ms) st) = status st.
Proof.
  revert st. induction ms as [|[[[t d] p] e] ms IH]; intros st G Q.
  - repeat split; assumption.
  - change (playback ((t, d, p, e) :: ms))
      with ([SMedia t d p e; SFrame] ++ playback ms).
    rewrite run_app.
    destruct (@round_keeps_sync st t d p e G Q) as (G1 & Q1 & S1 & _).
    destruct (IH _ G1 ltac:(rewrite Q1; exact Q)) as (G2 & Q2 & S2).
    repeat split; [ exact G2 | rewrite Q2; exact Q1 | rewrite S2; exact S1 ].
Qed.

(** X3.  While a resource is bound, the status is [Playing] or [Loading]
    and a loop callback is queued, the displayed time after every frame is
    the resource's time at that frame, for as many frames as follow; the
    number of queued callbacks and the status stay as they were. *)
Theorem playback_keeps_time_in_sync
        (ms : list (float * float * bool * bool)) (t d : float) (p e : bool)
        (st : State) :
  loopGuard st = true -> 0 < rafQueue st ->
  currentTime (run (playback (ms ++ [(t, d, p, e)])) st) = t /\
  rafQueue (run (playback (ms ++ [(t, d, p, e)])) st) = rafQueue st /\
  status (run (playback (ms ++ [(t, d, p, e)])) st) = status st.
Proof.
  intros G Q. unfold playback. rewrite flat_map_app. fold (playback ms).
  rewrite run_app.
  destruct (@playback_keeps_loop ms st G Q) as (G1 & Q1 & S1).
  cbn [flat_map app].
  destruct (@round_keeps_sync _ t d p e G1 ltac:(rewrite Q1; exact Q))
    as (_ & Q2 & S2 & T2).
  repeat split; [ exact T2 | rewrite Q2; exact Q1 | rewrite S2; exact S1 ].
Qed.

Lemma playback_keeps_time_in_sync_witness :
  let a := mkResource 1 0%float 200%float false false in
  let st := run [SRebind (Some a)] (init None true None) in
  currentTime
    (run (playback [(1%float, 200%float, false, false);
                    (2%float, 200%float, false, false);
                    (3.5%float, 200%float, false, false)]) st) = 3.5%float.
Proof.
  intros a st.
  exact (proj1 (@playback_keeps_time_in_sync
                  [(1%float, 200%float, false, false);
                   (2%float, 200%float, false, false)]
                  3.5%float 200%float false false st
                  eq_refl (le_n 1))).
Defined.

Lemma idle_step_keeps_time (s : Step) (st : State) :
  movesTime s = false -> rafQueue st = 0 ->
  currentTime (step s st) = currentTime st /\ rafQueue (step s st) = 0.
Proof.
  intros Hm H0.
  destruct s as [name event | | audio | t d p e | state | frac];
    try discriminate; cbn.
  - destruct name; try discriminate; cbn; try (split; [ reflexivity | exact H0 ]).
    unfold setDuration. destruct (obj st); split; reflexivity || exact H0.
  - unfold frame. rewrite H0. cbn. split; reflexivity.
  - unfold mediaProgress. destruct (obj st); split; reflexivity || exact H0.
  - destruct (TrackProps.handleToggle_frame st state)
      as (_ & -> & _ & _ & _ & _ & ->). split; [ reflexivity | exact H0 ].
  - unfold handleSeeked, assignCurrentTime.
    destruct (obj st); [ destruct (PrimFloat.is_finite _) | ];
      split; reflexivity || exact H0.
Qed.

(** X4.  Once no loop callback is queued, the displayed time is moved
    only by a [play] event, a [timeupdate] event or a rebinding.  Any run
    of other steps, [playing] and [waiting] events and frames included,
    leaves it where it was and queues no callback. *)
Theorem stopped_loop_freezes_time (steps : list Step) (st : State) :
  rafQueue st = 0 ->
  forallb (fun s => negb (movesTime s)) steps = true ->
  currentTime (run steps st) = currentTime st /\ rafQueue (run steps st) = 0.
Proof.
  revert st. induction steps as [|s more IH]; cbn; intros st H0 Hs.
  - split; [ reflexivity | exact H0 ].
  - apply andb_prop in Hs. destruct Hs as (Hm & Hr).
    destruct (@idle_step_keeps_time s st) as (Ht & Hq);
      [ destruct (movesTime s); [ discriminate | reflexivity ] | exact H0 | ].
    destruct (IH _ Hq Hr) as (Ht' & Hq').
    split; [ rewrite Ht'; exact Ht | exact Hq' ].
Qed.

Lemma stopped_loop_freezes_time_witness :
  let a := mkResource 1 7%float 200%float true false in
  let st := run [SRebind (Some a)] (init None true None) in
  let steps := [SEvent EvPlaying (event_from a);
                SMedia 8%float 200%float false false; SFrame;
                SMedia 9%float 200%float false false; SFrame] in
  status (run steps st) = Playing /\
  currentTime (run steps st) = 7%float /\
  rafQueue (run steps st) = 0.
Proof.
  intros a st steps.
  destruct (@stopped_loop_freezes_time steps st eq_refl eq_refl) as (Ht & Hq).
  split; [ reflexivity | split; [ rewrite Ht; reflexivity | exact Hq ] ].
Defined.

(** *** What the handlers leave alone *)

Lemma local_step_keeps_status (s : Step) (st : State) :
  isLocalStep s = true ->
  status (step s st) = status st /\ hasLoaded (step s st) = hasLoaded st.
Proof.
  intro Hl. destruct s as [name event | | audio | t d p e | state | frac];
    try discriminate; cbn.
  - destruct (rest_eq (frame_rest st)) as (-> & _ & _ & -> & _). split; reflexivity.
  - unfold mediaProgress. destruct (obj st); split; reflexivity.
  - destruct (TrackProps.handleToggle_frame st state)
      as (-> & _ & _ & _ & -> & _). split; reflexivity.
  - unfold handleSeeked, assignCurrentTime.
    destruct (obj st); [ destruct (PrimFloat.is_finite _) | ]; split; reflexivity.
Qed.

(** X5.  The status follows the resource only: frames, changes of the
    resource's own fields, toggles and seeks, in any number and order,
    leave the status as it was.  It moves on resource events and on
    rebinding alone. *)
Theorem status_changes_only_on_events (steps : list Step) (st : State) :
  forallb isLocalStep steps = true ->
  status (run steps st) = status st.
Proof.
  revert st. induction steps as [|s more IH]; cbn; intros st Hs; [ reflexivity | ].
  apply andb_prop in Hs. destruct Hs as (Hl & Hm).
  rewrite (IH _ Hm). apply local_step_keeps_status, Hl.
Qed.

Lemma status_changes_only_on_events_witness :
  let a := mkResource 1 7%float 200%float true false in
  let st := run [SRebind (Some a)] (init None true None) in
  status (run [SToggle None; SFrame; SSeek 0.5%float; SToggle (Some Paused);
               SMedia 8%float 200%float false false] st) = Paused.
Proof.
  intros a st.
  rewrite (@status_changes_only_on_events
             [SToggle None; SFrame; SSeek 0.5%float; SToggle (Some Paused);
              SMedia 8%float 200%float false false] st eq_refl).
  reflexivity.
Defined.

Lemma quiet_step_keeps_outward (s : Step) (st : State) :
  isUserAction s = false ->
  filter isOutward (log (step s st)) = filter isOutward (log st).
Proof.
  intro Hu. destruct s as [name event | | audio | t d p e | state | frac];
    try discriminate; cbn.
  - destruct name; cbn; try reflexivity.
    + destruct (rest_eq (setPlaying_rest st)) as (_ & _ & _ & _ & _ & _ & _ & ->).
      reflexivity.
    + unfold setTimeWhenPaused. destruct (negb _), (target event); cbn;
        try reflexivity.
      destruct (status_eqb _ Played); reflexivity.
    + unfold setDuration. destruct (obj st); reflexivity.
    + rewrite filter_app. cbn. apply app_nil_r.
  - destruct (rest_eq (frame_rest st)) as (_ & _ & _ & _ & _ & _ & _ & ->).
    reflexivity.
  - destruct st as [s ct ds pd hl o q ls cl lg], audio as [[i t d p e]|];
      unfold rebind, watchCallback, runCleanup; cbn -[filter].
    + destruct cl, (Js.truthy d && negb (Js.isNaN d)), p, e, hl; reflexivity.
    + destruct cl; reflexivity.
  - unfold mediaProgress. destruct (obj st); reflexivity.
Qed.

(** X6.  Resource events, frames, rebindings and changes of the resource
    never call play or pause and never emit an analytics event: over any
    run without a toggle or a seek the list of such calls is unchanged. *)
Theorem only_user_actions_reach_out (steps : list Step) (st : State) :
  forallb (fun s => negb (isUserAction s)) steps = true ->
  filter isOutward (log (run steps st)) = filter isOutward (log st).
Proof.
  revert st. induction steps as [|s more IH]; cbn; intros st Hs; [ reflexivity | ].
  apply andb_prop in Hs. destruct Hs as (Hu & Hm).
  rewrite (IH _ Hm). apply quiet_step_keeps_outward.
  destruct (isUserAction s); [ discriminate | reflexivity ].
Qed.

Lemma only_user_actions_reach_out_witness :
  let a := mkResource 1 7%float 200%float false false in
  let steps := [SRebind (Some a); SEvent EvPlaying (event_from a); SFrame;
                SEvent EvEnded (event_from a);
                SEvent EvTimeupdate (event_from a)] in
  filter isOutward (log (run steps (init None false None))) = [] /\
  log (run steps (init None false None)) = [SetHasLoaded].
Proof.
  intros a steps.
  split; [ | reflexivity ].
  rewrite (@only_user_actions_reach_out steps (init None false None) eq_refl).
  reflexivity.
Defined.

End TrackRuns.

(** * Further properties of the collapsible tag section *)

Module TagsRuns.

Import Tags.

Unset Implicit Arguments.

Open Scope nat_scope.

(** *** Normalized tags *)

Lemma seen_spec (x : string) (seen : list string) :
  existsb (String.eqb x) seen = true <-> In x seen.
Proof.
  rewrite existsb_exists. split.
  - intros (y & Hy & E). apply String.eqb_eq in E. subst y. exact Hy.
  - intro H. exists x. split; [ exact H | apply String.eqb_refl ].
Qed.

Lemma seen_ext (x : string) (s1 s2 : list string) :
  (forall y, In y s1 <-> In y s2) ->
  existsb (String.eqb x) s1 = existsb (String.eqb x) s2.
Proof.
  intro H. destruct (existsb (String.eqb x) s1) eqn:E1,
    (existsb (String.eqb x) s2) eqn:E2; try reflexivity.
  - apply seen_spec, H, seen_spec in E1. congruence.
  - apply seen_spec, H, seen_spec in E2. congruence.
Qed.

Lemma setFrom_In (xs seen : list string) (x : string) :
  In x (setFrom seen xs) <-> In x xs /\ ~ In x seen.
Proof.
  revert seen. induction xs as [|y xs IH]; intro seen; cbn.
  - tauto.
  - destruct (existsb (String.eqb y) seen) eqn:E.
    + rewrite IH. apply seen_spec in E. split.
      * tauto.
      * intros ([-> | H] & Hn); [ contradiction | tauto ].
    + assert (Hy : ~ In y seen).
      { intro H. apply seen_spec in H. congruence. }
      cbn. rewrite IH. cbn. split.
      * intros [-> | (H & Hn)]; [ tauto | tauto ].
      * intros ([-> | H] & Hn); [ tauto | ].
        destruct (String.eqb_spec y x) as [-> | Hne]; [ tauto | right; tauto ].
Qed.

Lemma setFrom_NoDup (xs seen : list string) : NoDup (setFrom seen xs).
Proof.
  revert seen. induction xs as [|y xs IH]; intro seen; cbn.
  - constructor.
  - destruct (existsb (String.eqb y) seen); [ apply IH | ].
    constructor; [ | apply IH ].
    rewrite setFrom_In. cbn. tauto.
Qed.

(** X7.  The normalized tags hold every tag name of the input and nothing
    else, each exactly once. *)
Theorem normalizedTags_each_name_once (st : State) :
  NoDup (normalizedTags st) /\
  forall x, In x (normalizedTags st) <-> In x (map name (tags st)).
Proof.
  unfold normalizedTags. split; [ apply setFrom_NoDup | ].
  intro x. rewrite setFrom_In. cbn. tauto.
Qed.

Lemma setFrom_fixed (xs seen : list string) :
  NoDup xs -> (forall x, In x xs -> ~ In x seen) -> setFrom seen xs = xs.
Proof.
  revert seen. induction xs as [|y xs IH]; intros seen Hn Hs; [ reflexivity | ].
  inversion Hn as [|? ? Hy Hxs]; subst. cbn.
  destruct (existsb (String.eqb y) seen) eqn:E.
  - apply seen_spec in E. exfalso. apply (Hs y); [ left; reflexivity | exact E ].
  - f_equal. apply IH; [ exact Hxs | ].
    intros x Hx [-> | H]; [ contradiction | ].
    apply (Hs x); [ right; exact Hx | exact H ].
Qed.

(** X8.  A list of names without repetition is its own normalization, in
    the same order; hence normalizing twice is the same as normalizing
    once. *)
Theorem normalization_is_idempotent (xs : list string) :
  (NoDup xs -> setFrom [] xs = xs) /\
  setFrom [] (setFrom [] xs) = setFrom [] xs.
Proof.
  split.
  - intro H. apply setFrom_fixed; [ exact H | intros x _ [] ].
  - apply setFrom_fixed; [ apply setFrom_NoDup | intros x _ [] ].
Qed.

Lemma normalization_is_idempotent_witness :
  setFrom [] ["cat"; "Cat"; "dog"]%string = ["cat"; "Cat"; "dog"]%string.
Proof.
  apply (proj1 (normalization_is_idempotent ["cat"; "Cat"; "dog"]%string)).
  repeat constructor; cbn; intuition discriminate.
Defined.

Lemma setFrom_ext (xs s1 s2 : list string) :
  (forall y, In y s1 <-> In y s2) -> setFrom s1 xs = setFrom s2 xs.
Proof.
  revert s1 s2. induction xs as [|x xs IH]; intros s1 s2 H; [ reflexivity | ].
  cbn. rewrite (seen_ext x _ _ H).
  destruct (existsb (String.eqb x) s2); [ apply IH, H | ].
  f_equal. apply IH. intro y. cbn. rewrite H. tauto.
Qed.

Lemma setFrom_app (xs ys seen : list string) :
  setFrom seen (xs ++ ys) = setFrom seen xs ++ setFrom (rev xs ++ seen) ys.
Proof.
  revert seen. induction xs as [|x xs IH]; intro seen; [ reflexivity | ].
  cbn [app setFrom rev]. destruct (existsb (String.eqb x) seen) eqn:E.
  - rewrite IH. f_equal. apply setFrom_ext. intro y.
    rewrite !in_app_iff. cbn. apply seen_spec in E.
    split; [ tauto | intros [[H | [-> | []]] | H]; tauto ].
  - cbn [app]. rewrite IH. do 2 f_equal. rewrite <- app_assoc. reflexivity.
Qed.

Lemma setFrom_filter (xs s t : list string) :
  setFrom (s ++ t) xs
  = filter (fun y => negb (existsb (String.eqb y) s)) (setFrom t xs).
Proof.
  revert t. induction xs as [|x xs IH]; intro t; [ reflexivity | ].
  cbn [setFrom]. rewrite existsb_app.
  destruct (existsb (String.eqb x) t) eqn:Et.
  - rewrite orb_true_r. apply IH.
  - rewrite orb_false_r. cbn [filter].
    destruct (existsb (String.eqb x) s) eqn:Es; cbn [negb].
    + rewrite <- IH. apply setFrom_ext. intro y. rewrite !in_app_iff. cbn.
      apply seen_spec in Es. split; [ tauto | intros [H | [-> | H]]; tauto ].
    + f_equal. rewrite <- IH. apply setFrom_ext. intro y.
      cbn. rewrite !in_app_iff. cbn. tauto.
Qed.

(** X9.  First-occurrence order: the normalization of a list followed by
    more tags is the normalization of the list, unchanged, followed by
    the normalized new names that the list did not have yet. *)
Theorem normalizedTags_append (ts more : list Tag) (d : string) (m : bool) :
  normalizedTags (init (ts ++ more) d m)
  = normalizedTags (init ts d m)
    ++ filter (fun y => negb (existsb (String.eqb y) (map name ts)))
         (normalizedTags (init more d m)).
Proof.
  unfold normalizedTags. cbn [tags init]. rewrite map_app, setFrom_app.
  f_equal. rewrite setFrom_filter. apply filter_ext. intro y.
  f_equal. apply seen_ext. intro z. rewrite <- in_rev. tauto.
Qed.

(** *** Visible tags *)

(** X10.  Tags are hidden only while overflow is reported and the button
    reads "show": without overflow, or once expanded, every normalized
    tag is visible; otherwise the visible tags are the normalized tags
    before the row-break index. *)
Theorem visibleTags_hidden_only_with_overflow (st : State) :
  (truthyValue (hasOverflow st) = false -> visibleTags st = normalizedTags st) /\
  (buttonStatus st = Hide -> visibleTags st = normalizedTags st) /\
  (forall k, truthyValue (hasOverflow st) = true -> buttonStatus st = Show ->
             collapsibleRowsStartAt st = Some k ->
             visibleTags st = firstn k (normalizedTags st) /\
             List.length (visibleTags st) = k /\
             k < List.length (normalizedTags st)).
Proof.
  unfold visibleTags, hasOverflow.
  destruct (collapsibleRowsStartAt st) as [[|k]|]; cbn [truthyValue];
    (split; [ | split ]); try (intros; reflexivity || discriminate).
  - intro H. apply Nat.ltb_ge in H.
    destruct (buttonStatus st); [ apply firstn_all2; exact H | reflexivity ].
  - intros ->. reflexivity.
  - intros k' H Hb E. inversion E; subst k'. rewrite Hb.
    apply Nat.ltb_lt in H. rewrite length_firstn.
    split; [ reflexivity | split; [ lia | exact H ] ].
Qed.

Lemma visibleTags_hidden_only_with_overflow_witness :
  let ts := map (fun n => mkTag n None)
                ["cat"; "Cat"; "dog"; "sun"; "sea"; "sky"; "ice"]%string in
  let kids := map mkElement [0; 50; 0; 50; 20; 0; 50]%Z in
  let st := run [AMounted kids] (init ts "ltr" true) in
  visibleTags st = ["cat"; "Cat"; "dog"; "sun"; "sea"]%string /\
  visibleTags (handleClick st) = normalizedTags st.
Proof.
  intros ts kids st.
  destruct (visibleTags_hidden_only_with_overflow st) as (_ & _ & H).
  destruct (H 5 eq_refl eq_refl eq_refl) as (Hv & _).
  destruct (visibleTags_hidden_only_with_overflow (handleClick st)) as (_ & Hh & _).
  split; [ rewrite Hv; reflexivity | rewrite (Hh eq_refl); reflexivity ].
Defined.

(** *** How many tags stay in view *)

Lemma findRowStartsAt_rows (d : string) (children : list HTMLElement) :
  ROWS_TO_DISPLAY <= findRowStartsAt d children \/
  findRowStartsAt d children = List.length children.
Proof.
  destruct (TagsProps.findRowStartsAt_cases d children) as [(_ & _ & Hb) | (H & _)].
  - left. rewrite <- Hb. apply TagsProps.rowsBegun_le.
  - right. exact H.
Qed.

Lemma visibleTags_keeps_rows (st : State) :
  indexKeepsRows st ->
  ROWS_TO_DISPLAY <= List.length (visibleTags st) \/
  List.length (visibleTags st) = List.length (normalizedTags st).
Proof.
  unfold indexKeepsRows, visibleTags.
  destruct (collapsibleRowsStartAt st) as [[|k]|]; try (intros; right; reflexivity).
  destruct (buttonStatus st); [ | intros; right; reflexivity ].
  rewrite length_firstn. intros [H | H]; lia.
Qed.

Lemma measured_keeps_rows (st st' : State) (children : list HTMLElement) :
  indexKeepsRows st ->
  rendered children st ->
  tags st' = tags st ->
  collapsibleRowsStartAt st' = Some (findRowStartsAt (dir st) children) ->
  indexKeepsRows st'.
Proof.
  intros Hi Hr Ht Hk. unfold indexKeepsRows, normalizedTags. rewrite Hk, Ht.
  fold (normalizedTags st). unfold rendered in Hr.
  destruct (findRowStartsAt_rows (dir st) children) as [H | H];
    [ left; exact H | ].
  rewrite H, Hr. apply visibleTags_keeps_rows, Hi.
Qed.

Lemma act_keeps_rows (a : Action) (st : State) :
  match a with
  | AMounted children | ANextTick children => rendered children st
  | _ => True
  end ->
  indexKeepsRows st -> indexKeepsRows (act a st).
Proof.
  destruct a as [children | | width | n o | children]; cbn; intros Hr Hi.
  - unfold onMounted. destruct (tagsContainerRef st); [ | exact Hi ].
    eapply measured_keeps_rows; [ exact Hi | exact Hr | reflexivity | reflexivity ].
  - unfold handleClick. destruct (buttonStatus st); cbn; [ | exact Hi ].
    destruct (Js.truthy_index _); exact Hi.
  - exact Hi.
  - unfold onListWidth. destruct (negb _); [ exact Hi | ].
    destruct (isWidening n o); [ | exact Hi ].
    unfold indexKeepsRows; cbn. right. reflexivity.
  - unfold runNextTick. destruct (nextTicks st) as [|[|] q]; cbn; [ exact Hi | | ].
    + destruct (tagsContainerRef st); [ | exact Hi ].
      eapply measured_keeps_rows; [ exact Hi | exact Hr | reflexivity | reflexivity ].
    + destruct (collapsibleRowsStartAt st) as [[|k]|] eqn:E; try exact Hi.
      unfold indexKeepsRows in *. rewrite E in Hi.
      destruct (_ && _); cbn; rewrite E; exact Hi.
Qed.

Lemma run_keeps_rows (acts : list Action) (st : State) :
  measuresRendered acts st -> indexKeepsRows st -> indexKeepsRows (run acts st).
Proof.
  revert st. induction acts as [|a more IH]; cbn; intros st Hm Hi; [ exact Hi | ].
  destruct Hm as (Ha & Hmore).
  apply IH; [ exact Hmore | ]. apply act_keeps_rows; assumption.
Qed.

(** X11.  Whenever a component that was mounted, clicked, resized and
    re-measured in any order reports overflow, its row-break index is at
    least [ROWS_TO_DISPLAY], and at least that many tags are visible: the
    collapsing never eats into the first three tags. *)
Theorem overflow_leaves_three_tags
        (ts : list Tag) (d : string) (mounted : bool) (acts : list Action) :
  measuresRendered acts (init ts d mounted) ->
  truthyValue (hasOverflow (run acts (init ts d mounted))) = true ->
  (exists k, collapsibleRowsStartAt (run acts (init ts d mounted)) = Some k /\
             ROWS_TO_DISPLAY <= k) /\
  ROWS_TO_DISPLAY <= List.length (visibleTags (run acts (init ts d mounted))).
Proof.
  intros Hm Ho.
  assert (Hi : indexKeepsRows (run acts (init ts d mounted))).
  { apply run_keeps_rows; [ exact Hm | exact I ]. }
  set (st := run acts (init ts d mounted)) in *.
  pose proof (visibleTags_keeps_rows st Hi) as Hv.
  unfold indexKeepsRows in Hi. unfold hasOverflow in Ho.
  destruct (collapsibleRowsStartAt st) as [[|k]|]; try discriminate.
  cbn [truthyValue] in Ho. apply Nat.ltb_lt in Ho.
  assert (Hk : ROWS_TO_DISPLAY <= S k) by (destruct Hi; lia).
  split; [ exists (S k); split; [ reflexivity | exact Hk ] | ].
  destruct Hv as [H | H]; [ exact H | lia ].
Qed.

Lemma overflow_leaves_three_tags_witness :
  let ts := map (fun n => mkTag n None)
                ["cat"; "Cat"; "dog"; "sun"; "sea"; "sky"; "ice"]%string in
  let kids := map mkElement [0; 50; 0; 50; 20; 0; 50]%Z in
  let narrow := map mkElement [0; 0; 0; 0; 0]%Z in
  let acts := [AMounted kids; AListWidth (Some 90%float) (Some 300%float);
               ANextTick narrow] in
  collapsibleRowsStartAt (run acts (init ts "ltr" true)) = Some 5 /\
  3 <= List.length (visibleTags (run acts (init ts "ltr" true))).
Proof.
  intros ts kids narrow acts.
  assert (Hm : measuresRendered acts (init ts "ltr" true)).
  { repeat split. }
  destruct (overflow_leaves_three_tags ts "ltr" true acts Hm eq_refl) as (_ & H).
  split; [ reflexivity | exact H ].
Defined.

(** X12.  While the list is collapsed at a non-zero index, a resize that
    is not a widening followed by its re-measurement never raises the
    index: the measurement sees only the tags that were visible. *)
Theorem collapsed_remeasure_never_grows
        (st : State) (n o : option float) (children : list HTMLElement) (k : nat) :
  tagsContainerRef st = true ->
  nextTicks st = [] ->
  buttonStatus st = Show ->
  collapsibleRowsStartAt st = Some (S k) ->
  isWidening n o = false ->
  rendered children (act (AListWidth n o) st) ->
  exists r,
    collapsibleRowsStartAt (run [AListWidth n o; ANextTick children] st) = Some r /\
    r <= S k.
Proof.
  intros Hc Hq Hb Hk Hw Hr.
  assert (E : act (AListWidth n o) st = nextTick Remeasure st).
  { cbn. unfold onListWidth. rewrite Hc, Hw. reflexivity. }
  change (run [AListWidth n o; ANextTick children] st)
    with (runNextTick children (act (AListWidth n o) st)).
  rewrite E in *.
  assert (Hv : List.length (visibleTags (nextTick Remeasure st)) <= S k).
  { unfold visibleTags. cbn [collapsibleRowsStartAt buttonStatus nextTick with_nextTicks].
    rewrite Hk, Hb, length_firstn. lia. }
  unfold rendered in Hr. rewrite <- Hr in Hv.
  unfold runNextTick, nextTick.
  cbn [nextTicks with_nextTicks]. rewrite Hq. cbn [app runJob tagsContainerRef with_nextTicks].
  rewrite Hc. exists (findRowStartsAt (dir st) children). split; [ reflexivity | ].
  pose proof (TagsProps.findRowStartsAt_le (dir st) children) as Hle. lia.
Qed.

Lemma collapsed_remeasure_never_grows_witness :
  let ts := map (fun n => mkTag n None)
                ["cat"; "Cat"; "dog"; "sun"; "sea"; "sky"; "ice"]%string in
  let kids := map mkElement [0; 50; 0; 50; 20; 0; 50]%Z in
  let roomy := map mkElement [0; 50; 100; 150; 200]%Z in
  let st := run [AMounted kids] (init ts "ltr" true) in
  collapsibleRowsStartAt
    (run [AListWidth (Some 300%float) (Some 0%float); ANextTick roomy] st) = Some 5.
Proof.
  intros ts kids roomy st.
  destruct (collapsed_remeasure_never_grows st (Some 300%float) (Some 0%float)
              roomy 4 eq_refl eq_refl eq_refl eq_refl eq_refl eq_refl)
    as (r & Hr & _).
  rewrite Hr. vm_compute in Hr. symmetry. exact Hr.
Defined.

(** *** The button *)

(** X13.  A click changes the button only: the row-break index and the
    normalized tags are untouched.  Two clicks in a row bring back the
    button and the visible tags, and have reported both transitions in
    order, the state reached first. *)
Theorem handleClick_twice_restores (st : State) :
  collapsibleRowsStartAt (handleClick st) = collapsibleRowsStartAt st /\
  normalizedTags (handleClick st) = normalizedTags st /\
  buttonStatus (handleClick (handleClick st)) = buttonStatus st /\
  visibleTags (handleClick (handleClick st)) = visibleTags st /\
  sent (handleClick (handleClick st))
  = sent st ++
    match buttonStatus st with
    | Show => [ToggleTagExpansion "expanded"; ToggleTagExpansion "collapsed"]
    | Hide => [ToggleTagExpansion "collapsed"; ToggleTagExpansion "expanded"]
    end.
Proof.
  destruct st as [ts d k b c w q f sn].
  unfold handleClick, visibleTags, normalizedTags.
  destruct b, k as [[|k]|]; cbn; rewrite <- ?app_assoc; repeat split.
Qed.

(** X14.  Expanding a collapsed list that reports overflow asks, on the
    next render pass, for focus on the child at the row-break index,
    which holds the first tag that was hidden; collapsing asks for no
    focus at all. *)
Theorem expanding_focuses_first_hidden_tag
        (st : State) (children : list HTMLElement) (k : nat) :
  (tagsContainerRef st = true ->
   nextTicks st = [] ->
   buttonStatus st = Show ->
   collapsibleRowsStartAt st = Some k ->
   truthyValue (hasOverflow st) = true ->
   rendered children (handleClick st) ->
   focusRequests (runNextTick children (handleClick st))
     = focusRequests st ++ [Some k] /\
   nth_error (visibleTags st) k = None /\
   nth_error (visibleTags (handleClick st)) k = nth_error (normalizedTags st) k /\
   nth_error (normalizedTags st) k <> None) /\
  (buttonStatus st = Hide ->
   nextTicks (handleClick st) = nextTicks st /\
   focusRequests (handleClick st) = focusRequests st).
Proof.
  destruct st as [ts d i b c w q f sn].
  cbn [tagsContainerRef nextTicks buttonStatus collapsibleRowsStartAt focusRequests].
  split.
  - intros -> -> -> -> Ho Hr.
    unfold hasOverflow in Ho. cbn [collapsibleRowsStartAt] in Ho.
    destruct k as [|k]; [ discriminate | ].
    cbn [truthyValue] in Ho. apply Nat.ltb_lt in Ho.
    unfold rendered, handleClick, visibleTags, normalizedTags in *.
    cbn -[Nat.ltb List.length nth_error firstn setFrom] in Hr, Ho |- *.
    assert (Hin : Nat.ltb (S k) (List.length children) = true).
    { apply Nat.ltb_lt. rewrite Hr. exact Ho. }
    unfold runNextTick. cbn -[Nat.ltb List.length nth_error firstn setFrom].
    rewrite Hin. cbn -[Nat.ltb List.length nth_error firstn setFrom].
    split; [ reflexivity | split; [ | split; [ reflexivity | ] ] ].
    + apply nth_error_None. rewrite length_firstn. lia.
    + apply nth_error_Some. exact Ho.
  - intros ->. unfold handleClick. cbn. split; reflexivity.
Qed.

Lemma expanding_focuses_first_hidden_tag_witness :
  let ts := map (fun n => mkTag n None)
                ["cat"; "Cat"; "dog"; "sun"; "sea"; "sky"; "ice"]%string in
  let kids := map mkElement [0; 50; 0; 50; 20; 0; 50]%Z in
  let st := run [AMounted kids] (init ts "ltr" true) in
  focusRequests (runNextTick kids (handleClick st)) = [Some 5] /\
  nth_error (visibleTags (handleClick st)) 5 = Some "sky"%string.
Proof.
  intros ts kids st.
  destruct (expanding_focuses_first_hidden_tag st kids 5) as (H & _).
  destruct (H eq_refl eq_refl eq_refl eq_refl eq_refl eq_refl) as (Hf & _ & Hn & _).
  split; [ rewrite Hf; reflexivity | rewrite Hn; reflexivity ].
Defined.

(** *** Layout direction *)

Lemma isFurtherInline_mirror (d : string) (w : Z) (p c : HTMLElement) :
  String.eqb d "rtl" = false ->
  isFurtherInline "rtl" (mirror w p) (mirror w c) = isFurtherInline d p c.
Proof.
  intro Hd. unfold isFurtherInline. rewrite Hd. cbn.
  rewrite Z.gtb_ltb.
  destruct (Z.ltb_spec (w - offsetLeft p) (w - offsetLeft c)),
    (Z.ltb_spec (offsetLeft c) (offsetLeft p)); reflexivity || lia.
Qed.

Lemma rowLoop_mirror (d : string) (w : Z) (rest : list HTMLElement) :
  String.eqb d "rtl" = false ->
  forall prev i rc,
    rowLoop "rtl" (option_map (mirror w) prev) (map (mirror w) rest) i rc
    = rowLoop d prev rest i rc.
Proof.
  intro Hd. induction rest as [|child rest IH]; intros prev i rc; [ reflexivity | ].
  cbn [map rowLoop].
  assert (E : match option_map (mirror w) prev with
              | Some p => if isFurtherInline "rtl" p (mirror w child)
                          then S rc else rc
              | None => S rc
              end
            = match prev with
              | Some p => if isFurtherInline d p child then S rc else rc
              | None => S rc
              end).
  { destruct prev as [p|]; cbn [option_map]; [ | reflexivity ].
    rewrite (isFurtherInline_mirror d w p child Hd). reflexivity. }
  rewrite E.
  destruct (Nat.eqb _ (ROWS_TO_DISPLAY + 1)); [ reflexivity | ].
  apply (IH (Some child)).
Qed.

(** X15.  The detection is symmetric in the direction: a layout measured
    as ["rtl"] gives the same index as its mirror image measured under
    any other direction, and the other way round. *)
Theorem findRowStartsAt_mirror (d : string) (w : Z) (children : list HTMLElement) :
  String.eqb d "rtl" = false ->
  findRowStartsAt "rtl" (map (mirror w) children) = findRowStartsAt d children /\
  findRowStartsAt d (map (mirror w) children) = findRowStartsAt "rtl" children.
Proof.
  intro Hd.
  assert (H1 : forall cs,
             findRowStartsAt "rtl" (map (mirror w) cs) = findRowStartsAt d cs).
  { intro cs. destruct cs as [|c cs]; [ reflexivity | ].
    pose proof (rowLoop_mirror d w (c :: cs) Hd None 0 0) as E.
    cbn [option_map] in E.
    change (findRowStartsAt "rtl" (map (mirror w) (c :: cs)))
      with (match rowLoop "rtl" None (map (mirror w) (c :: cs)) 0 0 with
            | Some i => i
            | None => List.length (map (mirror w) (c :: cs))
            end).
    rewrite E, length_map. reflexivity. }
  split; [ apply H1 | ].
  rewrite <- (H1 (map (mirror w) children)). f_equal.
  rewrite map_map. rewrite <- (map_id children) at 2.
  apply map_ext. intros [x]. unfold mirror. cbn. f_equal. lia.
Qed.

Lemma findRowStartsAt_mirror_witness :
  let kids := map mkElement [0; 50; 0; 50; 20; 0; 50]%Z in
  findRowStartsAt "rtl" (map (mirror 300) kids) = 5.
Proof.
  intro kids.
  rewrite (proj1 (findRowStartsAt_mirror "ltr" 300 kids eq_refl)). reflexivity.
Defined.

(** *** Measuring what is visible *)

Lemma startsNewRow_firstn (d : string) (children : list HTMLElement) (n i : nat) :
  i < n ->
  startsNewRow d (firstn n children) i = startsNewRow d children i.
Proof.
  intro Hi. unfold startsNewRow. destruct i as [|j].
  - destruct n; [ lia | ]. destruct children; reflexivity.
  - rewrite !nth_error_firstn.
    destruct (Nat.ltb_spec j n), (Nat.ltb_spec (S j) n); try lia. reflexivity.
Qed.

Lemma rowsBegun_firstn (d : string) (children : list HTMLElement) (n m : nat) :
  m <= n ->
  rowsBegun d (firstn n children) m = rowsBegun d children m.
Proof.
  induction m as [|m IH]; intro Hm; [ reflexivity | ].
  rewrite !TagsProps.rowsBegun_succ, IH by lia.
  rewrite startsNewRow_firstn by lia. reflexivity.
Qed.

(** X16.  Measuring only the children before the returned index, laid
    out as they were, returns that many again: the collapsed list is a
    fixed point of the measurement, and so is every shorter prefix. *)
Theorem findRowStartsAt_prefix_stable
        (d : string) (children : list HTMLElement) (n : nat) :
  n <= findRowStartsAt d children ->
  findRowStartsAt d (firstn n children) = n.
Proof.
  intro Hn.
  pose proof (TagsProps.findRowStartsAt_le d children) as Hle.
  assert (Hlen : List.length (firstn n children) = n).
  { rewrite length_firstn. lia. }
  assert (Hrows : rowsBegun d children n < ROWS_TO_DISPLAY + 1).
  { pose proof (TagsProps.rowsBegun_mono d children
                  (m := n) (n := findRowStartsAt d children) Hn) as Hm.
    destruct (TagsProps.findRowStartsAt_cases d children)
      as [(_ & _ & Hb) | (He & Hb)].
    - rewrite Hb in Hm. lia.
    - rewrite He in Hm. lia. }
  destruct (TagsProps.findRowStartsAt_cases d (firstn n children))
    as [(Hr & Hs & Hb) | (He & _)].
  - exfalso. rewrite Hlen in Hr.
    set (r := findRowStartsAt d (firstn n children)) in *.
    pose proof (TagsProps.rowsBegun_succ d (firstn n children) r) as Hsucc.
    rewrite Hs, Hb in Hsucc.
    rewrite (rowsBegun_firstn d children n (S r)) in Hsucc by lia.
    pose proof (TagsProps.rowsBegun_mono d children (m := S r) (n := n) Hr) as Hm.
    lia.
  - rewrite He. exact Hlen.
Qed.

Lemma findRowStartsAt_prefix_stable_witness :
  let kids := map mkElement [0; 50; 0; 50; 20; 0; 50]%Z in
  findRowStartsAt "ltr" (firstn 5 kids) = 5 /\
  findRowStartsAt "ltr" (firstn 2 kids) = 2.
Proof.
  intro kids. split.
  - apply (findRowStartsAt_prefix_stable "ltr" kids 5). apply Nat.leb_le. reflexivity.
  - apply (findRowStartsAt_prefix_stable "ltr" kids 2). apply Nat.leb_le. reflexivity.
Defined.

(** *** The height clamp *)

(** X17.  The three-row height clamp is applied exactly when some
    normalized tag is not rendered. *)
Theorem heightClass_clamps_iff_tags_hidden (st : State) :
  heightClass st = "max-h-[7.6875rem]"%string
  <-> List.length (visibleTags st) < List.length (normalizedTags st).
Proof.
  unfold heightClass, visibleTags, hasOverflow.
  destruct (collapsibleRowsStartAt st) as [[|k]|]; cbn [truthyValue negb].
  - split; [ discriminate | lia ].
  - destruct (Nat.ltb_spec (S k) (List.length (normalizedTags st))) as [H | H];
      cbn [negb]; destruct (buttonStatus st).
    + split; [ intros _; rewrite length_firstn; lia | reflexivity ].
    + split; [ discriminate | lia ].
    + split; [ discriminate | rewrite length_firstn; lia ].
    + split; [ discriminate | lia ].
  - split; [ discriminate | lia ].
Qed.

End TagsRuns.
